(** * Pose-engine locomotion: keypoint frames to motion constants

    A shallow embedding of
    [skills/pose-engine-locomotion/scripts/openpose_frames_to_motion_constants.py]
    and the properties its specification states about it.

    Numbers.  Python [float]s are modelled as rationals [Q]: arithmetic is
    exact, there is no NaN and no infinity.  Decimal literals of the source
    are the rationals they denote ([0.42] is [42 # 100]).  Comparisons are the
    decidable order of [Q]; equality of computed numbers is [Qeq] ([==]).

    Errors.  A Python exception is a value [Raise e] of the [result] type;
    every function that can raise in the source returns a [result] here. *)

From Stdlib Require Import String Bool ZArith QArith Qround Qabs Qminmax.
From Stdlib Require Import List Permutation Sorted Lia Lqa.
Import ListNotations.

Open Scope Q_scope.

(** ** Exceptions and the result monad *)

Inductive exn : Type :=
| ValueError
| IndexError
| TypeError.

Inductive result (A : Type) : Type :=
| Ok (a : A)
| Raise (e : exn).

Arguments Ok {A} a.
Arguments Raise {A} e.

Definition bind {A B : Type} (m : result A) (k : A -> result B) : result B :=
  match m with
  | Ok a => k a
  | Raise e => Raise e
  end.

Notation "x <- m ;; k" := (bind m (fun x => k))
  (at level 61, m at next level, right associativity).

(** A list comprehension whose element expression can raise: elements are
    evaluated left to right and the first exception aborts the whole list. *)
Fixpoint mapM {A B : Type} (f : A -> result B) (l : list A) : result (list B) :=
  match l with
  | [] => Ok []
  | a :: l' => b <- f a ;; bs <- mapM f l' ;; Ok (b :: bs)
  end.

(** ** Python built-ins on numbers and lists *)

Definition Qltb (a b : Q) : bool :=
  match Qcompare a b with Lt => true | _ => false end.

(** [max(a, b)]: the first argument is kept unless the second is strictly
    larger. *)
Definition py_max (a b : Q) : Q := if Qltb a b then b else a.

(** [min(a, b)]: the first argument is kept unless the second is strictly
    smaller. *)
Definition py_min (a b : Q) : Q := if Qltb b a then b else a.

(** [max(xs)] and [min(xs)] on a list; [ValueError] on the empty list. *)
Definition py_max_list (xs : list Q) : result Q :=
  match xs with
  | [] => Raise ValueError
  | x :: xs' => Ok (fold_left py_max xs' x)
  end.

Definition py_min_list (xs : list Q) : result Q :=
  match xs with
  | [] => Raise ValueError
  | x :: xs' => Ok (fold_left py_min xs' x)
  end.

(** [xs[i]] with Python's index rule: a negative index counts from the end,
    anything outside the list raises [IndexError]. *)
Definition py_getitem {A : Type} (xs : list A) (i : Z) : result A :=
  let n := Z.of_nat (length xs) in
  let j := (if i <? 0 then i + n else i)%Z in
  if (j <? 0)%Z then Raise IndexError
  else match nth_error xs (Z.to_nat j) with
       | Some a => Ok a
       | None => Raise IndexError
       end.

(** [range(n)] for an integer [n]: empty when [n <= 0]. *)
Definition py_range (n : Z) : list Z :=
  map Z.of_nat (seq 0 (Z.to_nat n)).

(** [sorted(xs)]: a stable ascending sort. *)
Fixpoint insert_sorted (x : Q) (l : list Q) : list Q :=
  match l with
  | [] => [x]
  | y :: l' => if Qltb y x then y :: insert_sorted x l' else x :: l
  end.

Fixpoint sorted (l : list Q) : list Q :=
  match l with
  | [] => []
  | x :: l' => insert_sorted x (sorted l')
  end.

(** [statistics.median(data)] on a non-empty list: the middle element of the
    sorted data, or the mean of the two middle elements. *)
Definition statistics_median (data : list Q) : Q :=
  let s := sorted data in
  let n := length s in
  if Nat.odd n then nth (n / 2) s 0
  else (nth (n / 2 - 1) s 0 + nth (n / 2) s 0) / 2.

(** [round(v, 2)]: the nearest multiple of 1/100, ties to the even one. *)
Definition round_half_even (q : Q) : Z :=
  let f := Qfloor q in
  let r := q - inject_Z f in
  match Qcompare r (1 # 2) with
  | Lt => f
  | Gt => (f + 1)%Z
  | Eq => if Z.even f then f else (f + 1)%Z
  end.

Definition py_round2 (v : Q) : Q := round_half_even (v * 100) # 100.

(** ** Module constants *)

Definition COCO_PARTS : list string :=
  [ "nose"; "neck"; "r_shoulder"; "r_elbow"; "r_wrist"; "l_shoulder";
    "l_elbow"; "l_wrist"; "r_hip"; "r_knee"; "r_ankle"; "l_hip"; "l_knee";
    "l_ankle"; "r_eye"; "l_eye"; "r_ear"; "l_ear" ]%string.

(** [COCO_PARTS.index(name)]: [ValueError] when the name is not listed. *)
Fixpoint list_index (name : string) (l : list string) : result Z :=
  match l with
  | [] => Raise ValueError
  | s :: l' => if String.eqb s name then Ok 0%Z
               else i <- list_index name l' ;; Ok (i + 1)%Z
  end.

(** ** [_median] and [_clamp] *)

(** [_median(values, fallback)].  The [isinstance(v, (int, float))] filter
    keeps every element of a list of numbers, so [clean] is [values]. *)
Definition _median (values : list Q) (fallback : Q) : Q :=
  let clean := values in
  match clean with
  | [] => fallback
  | _ => statistics_median clean
  end.

Definition _clamp (value lo hi : Q) : Q := py_max lo (py_min hi value).

(** [int(x)] on a float truncates toward zero. *)
Definition py_int (q : Q) : Z := Z.quot (Qnum q) (Z.pos (Qden q)).

(** ** Parsed JSON values

    The value [json.load] returns: a dictionary is the list of its items in
    insertion order, its keys are distinct strings. *)

#[local] Set Warnings "-register-all".

Inductive pyval : Type :=
| PNone
| PBool (b : bool)
| PInt (z : Z)
| PFloat (q : Q)
| PStr (s : string)
| PList (l : list pyval)
| PDict (d : list (string * pyval)).

(** [d.get(key)], with [None] for a missing key. *)
Fixpoint dict_get (key : string) (d : list (string * pyval)) : option pyval :=
  match d with
  | [] => None
  | (k, v) :: d' => if String.eqb k key then Some v else dict_get key d'
  end.

Section Ingestion.

(** [float(s)] on a string: the number the text denotes, or nothing when
    Python rejects the text with [ValueError].  The grammar is the
    interpreter's, not this program's. *)
Variable str_to_float : string -> option Q.

(** [float(v)]: numbers and booleans convert, a string is parsed, anything
    else is a [TypeError]. *)
Definition py_float (v : pyval) : result Q :=
  match v with
  | PBool b => Ok (if b then 1 else 0)
  | PInt z => Ok (inject_Z z)
  | PFloat q => Ok q
  | PStr s => match str_to_float s with
              | Some q => Ok q
              | None => Raise ValueError
              end
  | PNone | PList _ | PDict _ => Raise TypeError
  end.

Definition _extract_people_entry (frame : pyval)
  : option (list (string * pyval)) :=
  match frame with
  | PDict d =>
      match dict_get "people" d with
      | Some (PList people) =>
          match people with
          | [] => None
          | PDict person :: _ => Some person
          | _ :: _ => None
          end
      | _ => Some d
      end
  | _ => None
  end.

Definition _extract_keypoints_array (frame : pyval)
  : result (option (list Q)) :=
  match _extract_people_entry frame with
  | None => Ok None
  | Some [] => Ok None
  | Some person =>
      match dict_get "pose_keypoints_2d" person with
      | Some (PList arr) =>
          if (length arr <? length COCO_PARTS * 3)%nat then Ok None
          else fs <- mapM py_float arr ;; Ok (Some fs)
      | _ => Ok None
      end
  end.

(** The per-frame items [_load_frames] iterates over. *)
Definition frame_items (payload : pyval) : list pyval :=
  match payload with
  | PDict d =>
      match dict_get "frames" d with
      | Some (PList items) => items
      | _ => [payload]
      end
  | PList items => items
  | _ => [payload]
  end.

(** The [for item in items] loop; [frames] is the list built so far. *)
Fixpoint load_loop (items : list pyval) (frames : list (list Q))
  : result (list (list Q)) :=
  match items with
  | [] => Ok frames
  | item :: rest =>
      arr <- _extract_keypoints_array item ;;
      match arr with
      | Some ((_ :: _) as a) => load_loop rest (frames ++ [a])
      | _ => load_loop rest frames
      end
  end.

Definition _load_frames (payload : pyval) : result (list (list Q)) :=
  load_loop (frame_items payload) [].

End Ingestion.

(** ** Midpoint extraction *)

Definition XYC : Type := Q * Q * Q.

Definition _part (frame : list Q) (name : string) : result (option XYC) :=
  i <- list_index name COCO_PARTS ;;
  let idx := (i * 3)%Z in
  x <- py_getitem frame idx ;;
  y <- py_getitem frame (idx + 1)%Z ;;
  c <- py_getitem frame (idx + 2)%Z ;;
  if Qle_bool c 0 then Ok None else Ok (Some (x, y, c)).

Definition _midpoint (a b : option XYC) (min_conf : Q) : option (Q * Q) :=
  match a, b with
  | Some (ax, ay, ac), Some (bx, by_, bc) =>
      if Qltb ac min_conf || Qltb bc min_conf then None
      else Some ((ax + bx) * (1 # 2), (ay + by_) * (1 # 2))
  | _, _ => None
  end.

(** ** Motion statistics *)

(** [hip_x[i + 1] - hip_x[i]], the element of both delta comprehensions. *)
Definition delta_at (hip_x : list Q) (i : Z) : result Q :=
  b <- py_getitem hip_x (i + 1)%Z ;;
  a <- py_getitem hip_x i ;;
  Ok (b - a).

Definition len {A : Type} (l : list A) : Z := Z.of_nat (length l).

Definition _stride_stats (hip_x : list Q) : result (Q * Q) :=
  deltas <- mapM (delta_at hip_x) (py_range (len hip_x - 1)) ;;
  let abs_deltas :=
    map Qabs (filter (fun d => Qltb (1 # 1000000) (Qabs d)) deltas) in
  let walk_stride := _median abs_deltas 30 * (21 # 10) in
  let run_stride := walk_stride * (165 # 100) in
  Ok (walk_stride, run_stride).

Definition _dash_distance (hip_x : list Q) : result Q :=
  ds <- mapM (fun i => d <- delta_at hip_x i ;; Ok (Qabs d))
             (py_range (len hip_x - 1)) ;;
  let deltas := sorted ds in
  match deltas with
  | [] => Ok 64
  | _ :: _ =>
      let p90_index := py_int ((9 # 10) * inject_Z (len deltas - 1)) in
      d <- py_getitem deltas p90_index ;;
      Ok (py_max 48 (d * (45 # 10)))
  end.

(** ** Constant synthesis *)

(** The [for frame in frames] loop of [derive_motion_constants]; the two
    accumulators are [hip_midpoints] and [shoulder_midpoints]. *)
Fixpoint collect_midpoints (frames : list (list Q)) (min_conf : Q)
    (hip_midpoints shoulder_midpoints : list (Q * Q))
  : result (list (Q * Q) * list (Q * Q)) :=
  match frames with
  | [] => Ok (hip_midpoints, shoulder_midpoints)
  | frame :: rest =>
      l_hip <- _part frame "l_hip" ;;
      r_hip <- _part frame "r_hip" ;;
      l_shoulder <- _part frame "l_shoulder" ;;
      r_shoulder <- _part frame "r_shoulder" ;;
      let hip_mid := _midpoint l_hip r_hip min_conf in
      let shoulder_mid := _midpoint l_shoulder r_shoulder min_conf in
      let hip_midpoints :=
        match hip_mid with
        | Some m => hip_midpoints ++ [m]
        | None => hip_midpoints
        end in
      let shoulder_midpoints :=
        match shoulder_mid with
        | Some m => shoulder_midpoints ++ [m]
        | None => shoulder_midpoints
        end in
      collect_midpoints rest min_conf hip_midpoints shoulder_midpoints
  end.

(** [abs(hip_y[i] - shoulder_y[min(i, len(shoulder_y) - 1)])]. *)
Definition span_at (hip_y shoulder_y : list Q) (i : Z) : result Q :=
  h <- py_getitem hip_y i ;;
  s <- py_getitem shoulder_y (Z.min i (len shoulder_y - 1)) ;;
  Ok (Qabs (h - s)).

Definition px_to_world : Q := 42 # 100.

(** Everything after the sample-count check: the statistics and the table of
    clamped, rounded constants. *)
Definition synthesize (hip_midpoints shoulder_midpoints : list (Q * Q))
  : result (list (string * Q)) :=
  let hip_x := map fst hip_midpoints in
  let hip_y := map snd hip_midpoints in
  strides <- _stride_stats hip_x ;;
  let walk_stride := fst strides in
  let run_stride := snd strides in
  dash_distance <- _dash_distance hip_x ;;
  y0 <- py_getitem hip_y 0 ;;
  let baseline_hip_y := _median hip_y y0 in
  min_hip_y <- py_min_list hip_y ;;
  max_hip_y <- py_max_list hip_y ;;
  let jump_height_px := py_max 12 (baseline_hip_y - min_hip_y) in
  let crouch_drop_px := py_max 10 (max_hip_y - baseline_hip_y) in
  let shoulder_y :=
    match shoulder_midpoints with
    | [] => hip_y
    | _ :: _ => map snd shoulder_midpoints
    end in
  spans <- mapM (span_at hip_y shoulder_y) (py_range (len hip_y)) ;;
  let upper_motion := _median spans 80 in
  let constants :=
    [ ("WALK_SWING_FORWARD_PX", _clamp (walk_stride * px_to_world) 20 72);
      ("WALK_SWING_LIFT_PX",
        _clamp (jump_height_px * px_to_world * (42 # 100)) 14 42);
      ("RUN_SWING_FORWARD_PX", _clamp (run_stride * px_to_world) 34 112);
      ("RUN_SWING_LIFT_PX",
        _clamp (jump_height_px * px_to_world * (58 # 100)) 20 64);
      ("JUMP_HEIGHT_PX", _clamp (jump_height_px * px_to_world) 24 120);
      ("CROUCH_ROOT_DROP_PX", _clamp (crouch_drop_px * px_to_world) 16 56);
      ("DASH_ROOT_ADVANCE_PX", _clamp (dash_distance * px_to_world) 42 140);
      ("DASH_FOOT_DRIVE_PX",
        _clamp (dash_distance * px_to_world * (5 # 10)) 24 74);
      ("ROOT_NUDGE_STEP_PX",
        _clamp (_median (map Qabs [walk_stride * px_to_world * (18 # 100)]) 14)
               8 26);
      ("REFERENCE_BODY_SPAN_PX", _clamp upper_motion 40 240) ]%string in
  Ok (map (fun kv => (fst kv, py_round2 (snd kv))) constants).

Definition derive_motion_constants (frames : list (list Q)) (min_conf : Q)
  : result (list (string * Q)) :=
  mids <- collect_midpoints frames min_conf [] [] ;;
  let hip_midpoints := fst mids in
  let shoulder_midpoints := snd mids in
  if (len hip_midpoints <? 2)%Z then Raise ValueError
  else synthesize hip_midpoints shoulder_midpoints.

(** Lookup of a constant in the returned mapping. *)
Fixpoint constant (key : string) (cs : list (string * Q)) : option Q :=
  match cs with
  | [] => None
  | (k, v) :: cs' => if String.eqb k key then Some v else constant key cs'
  end.

(** * Specification-side definitions *)

(** A constant of the returned mapping lies in the closed range [lo, hi]. *)
Definition in_range (cs : list (string * Q)) (key : string) (lo hi : Q)
  : Prop :=
  exists v, constant key cs = Some v /\ lo <= v <= hi.

(** A frame long enough to address every canonical part. *)
Definition frame_ok (frame : list Q) : Prop :=
  (length COCO_PARTS * 3 <= length frame)%nat.

(** [frame] is the whole keypoint array of [item], converted element by
    element with [float]: same length, none left out. *)
Definition converted_from (str_to_float : string -> option Q)
    (item : pyval) (frame : list Q) : Prop :=
  exists (person : list (string * pyval)) (arr : list pyval),
    _extract_people_entry item = Some person /\
    dict_get "pose_keypoints_2d" person = Some (PList arr) /\
    mapM (py_float str_to_float) arr = Ok frame /\
    length frame = length arr.

(** Frame-to-frame deltas as the specification writes them:
    [d_i = H[i+1] - H[i]]. *)
Fixpoint spec_deltas (H : list Q) : list Q :=
  match H with
  | [] => []
  | x0 :: t =>
      match t with
      | [] => []
      | x1 :: _ => (x1 - x0) :: spec_deltas t
      end
  end.

(** The 90th-percentile position [floor(0.9 * (count - 1))]. *)
Definition spec_p90_index (count : nat) : nat :=
  Z.to_nat (Qfloor ((9 # 10) * inject_Z (Z.of_nat count - 1))).

(** Per hip sample, the absolute vertical distance to the positionally
    paired sample of [series], the index clamped to its last sample. *)
Definition spec_spans (hip_y series : list Q) : list Q :=
  map (fun i => Qabs (nth i hip_y 0
                      - nth (Nat.min i (length series - 1)) series 0))
      (seq 0 (length hip_y)).

(** A frame whose hips sit at [(hx, hy)] with confidence [hc] and whose
    shoulders sit at [(sx, sy)] with confidence [sc]; every other joint is
    zero. *)
Definition pose_frame (hx hy hc sx sy sc : Q) : list Q :=
  repeat 0 6 ++ [sx; sy; sc] ++ repeat 0 6 ++ [sx; sy; sc] ++ repeat 0 6
    ++ [hx; hy; hc] ++ repeat 0 6 ++ [hx; hy; hc] ++ repeat 0 18.

(** Three frames of a walking figure, shoulders visible. *)
Definition walking_frames : list (list Q) :=
  [ pose_frame 100 400 1 100 300 1;
    pose_frame 130 400 1 130 300 1;
    pose_frame 95 430 1 95 330 1 ].

(** Two frames of a figure standing still, shoulders not detected. *)
Definition still_frames : list (list Q) :=
  [ pose_frame 100 400 1 0 0 0; pose_frame 100 400 1 0 0 0 ].

(** One item whose keypoint array holds 54 JSON nulls. *)
Definition null_keypoints_payload : pyval :=
  PList [ PDict [ ("pose_keypoints_2d"%string, PList (repeat PNone 54)) ] ].

(** One item whose keypoint array holds 75 numbers (a 25-joint skeleton). *)
Definition body25_payload : pyval :=
  PList [ PDict [ ("pose_keypoints_2d"%string,
                   PList (repeat (PFloat 1) 75)) ] ].

(** A frame whose right hip is seen with confidence 1 and whose left hip
    carries confidence 0; every other joint is zero. *)
Definition lopsided_frame : list Q :=
  repeat 0 24 ++ [100; 400; 1] ++ repeat 0 6 ++ [100; 400; 0] ++ repeat 0 18.

(** A string parser that accepts no text at all. *)
Definition reject_strings (s : string) : option Q := None.

(** * The command-line pipeline and the blueprint generator *)

(** ** [main] of the constants script, without file access and rendering *)

(** How a run of [main] ends: the constants handed to the renderer, the
    [SystemExit] raised for an input without frames, or an exception that
    nothing catches. *)
Inductive outcome : Type :=
| Constants (cs : list (string * Q))
| SystemExit (message : string)
| Uncaught (e : exn).

Definition main_core (str_to_float : string -> option Q) (payload : pyval)
    (min_confidence : Q) : outcome :=
  match _load_frames str_to_float payload with
  | Raise e => Uncaught e
  | Ok [] => SystemExit "No valid OpenPose-style frames found in input."
  | Ok ((_ :: _) as frames) =>
      match derive_motion_constants frames min_confidence with
      | Ok constants => Constants constants
      | Raise e => Uncaught e
      end
  end.

(** ** [generate_motion_blueprint.py]

    A payload is the dictionary the script builds: integers stay integers,
    a product with a float is a float. *)

Definition _walk_payload (direction : Z) (mode : string) (stride lift : Q)
  : pyval :=
  let payload :=
    [ ("root_delta",
        PDict [ ("x", PFloat (inject_Z direction * stride * (55 # 100)));
                ("y", PInt 0) ]);
      ("notes",
        PList [ PStr "Use alternating gait phase state for repeated walk commands.";
                PStr "Direction +1 means right/forward; -1 means left/backward." ])
    ]%string in
  if String.eqb mode "ik" then
    PDict (payload ++
      [ ("ik_targets",
          PDict
            [ ("swing_foot",
                PDict [ ("dx", PFloat (inject_Z direction * stride));
                        ("dy", PFloat (- lift)) ]);
              ("plant_foot",
                PDict [ ("dx", PFloat (inject_Z (- direction) * stride
                                       * (3 # 10)));
                        ("dy", PInt 0) ]);
              ("lead_hand",
                PDict [ ("dx", PFloat (inject_Z direction * stride
                                       * (5 # 10)));
                        ("dy", PFloat (- lift * (3 # 10))) ]);
              ("trail_hand",
                PDict [ ("dx", PFloat (inject_Z (- direction) * stride
                                       * (5 # 10)));
                        ("dy", PFloat (lift * (15 # 100))) ]) ]) ]%string)
  else
    PDict (payload ++
      [ ("fk_rotations_deg",
          PDict [ ("l_hip", PInt (-34 * direction));
                  ("r_hip", PInt (10 * direction));
                  ("l_knee", PInt 24);
                  ("r_knee", PInt (-18));
                  ("l_shoulder", PInt (22 * direction));
                  ("r_shoulder", PInt (-22 * direction)) ]) ]%string).

Definition _run_payload (direction : Z) (mode : string) (stride lift : Q)
  : pyval :=
  let run_stride := stride * (165 # 100) in
  let run_lift := lift * (13 # 10) in
  let payload :=
    [ ("root_delta",
        PDict [ ("x", PFloat (inject_Z direction * run_stride * (54 # 100)));
                ("y", PInt 0) ]);
      ("notes",
        PList [ PStr "Use a separate run phase state from walk for cleaner cadence.";
                PStr "Tune run_lift first if feet over-penetrate ground." ])
    ]%string in
  if String.eqb mode "ik" then
    PDict (payload ++
      [ ("ik_targets",
          PDict
            [ ("swing_foot",
                PDict [ ("dx", PFloat (inject_Z direction * run_stride));
                        ("dy", PFloat (- run_lift)) ]);
              ("plant_foot",
                PDict [ ("dx", PFloat (inject_Z (- direction) * run_stride
                                       * (32 # 100)));
                        ("dy", PInt 0) ]);
              ("lead_hand",
                PDict [ ("dx", PFloat (inject_Z direction * run_stride
                                       * (54 # 100)));
                        ("dy", PFloat (- run_lift * (42 # 100))) ]);
              ("trail_hand",
                PDict [ ("dx", PFloat (inject_Z (- direction) * run_stride
                                       * (54 # 100)));
                        ("dy", PFloat (run_lift * (2 # 10))) ]) ]) ]%string)
  else
    PDict (payload ++
      [ ("fk_rotations_deg",
          PDict [ ("l_hip", PInt (-52 * direction));
                  ("r_hip", PInt (18 * direction));
                  ("l_knee", PInt 40);
                  ("r_knee", PInt (-28));
                  ("l_shoulder", PInt (34 * direction));
                  ("r_shoulder", PInt (-34 * direction)) ]) ]%string).

Definition _jump_payload (mode : string) (jump_height : Q) : pyval :=
  let payload :=
    [ ("root_delta",
        PDict [ ("x", PInt 0); ("y", PFloat (- jump_height)) ]);
      ("notes",
        PList [ PStr "Apply this as a tap impulse; use a separate landing command or gravity pass to settle." ])
    ]%string in
  if String.eqb mode "ik" then
    PDict (payload ++
      [ ("ik_targets",
          PDict
            [ ("l_foot",
                PDict [ ("dx", PInt (-8));
                        ("dy", PFloat (- jump_height * (57 # 100))) ]);
              ("r_foot",
                PDict [ ("dx", PInt 8);
                        ("dy", PFloat (- jump_height * (57 # 100))) ]);
              ("l_hand",
                PDict [ ("dx", PInt (-12));
                        ("dy", PFloat (- jump_height * (75 # 100))) ]);
              ("r_hand",
                PDict [ ("dx", PInt 12);
                        ("dy", PFloat (- jump_height * (75 # 100))) ]) ]) ]%string)
  else
    PDict (payload ++
      [ ("fk_rotations_deg",
          PDict [ ("l_hip", PInt (-42));
                  ("r_hip", PInt 42);
                  ("l_knee", PInt 34);
                  ("r_knee", PInt (-34));
                  ("l_shoulder", PInt (-78));
                  ("r_shoulder", PInt 78) ]) ]%string).

Definition _nudge_payload (dx dy : pyval) : pyval :=
  PDict [ ("root_delta", PDict [ ("x", dx); ("y", dy) ]);
          ("notes",
            PList [ PStr "Nudge commands should be repeatable and small in magnitude." ])
        ]%string.

Definition _crouch_payload (enter : bool) (crouch_drop : Q) : pyval :=
  PDict
    [ ("root_delta",
        PDict [ ("x", PInt 0);
                ("y", PFloat (if enter then crouch_drop else - crouch_drop)) ]);
      ("notes",
        PList [ PStr "Treat crouch as a toggle pair: crouch_enter then crouch_exit." ]);
      ("fk_rotations_deg",
        PDict [ ("torso", PInt (if enter then 18 else 0));
                ("l_hip", PInt (if enter then -22 else -18));
                ("r_hip", PInt (if enter then 22 else 18));
                ("l_knee", PInt (if enter then 62 else 0));
                ("r_knee", PInt (if enter then -62 else 0)) ]) ]%string.

Definition _dash_payload (direction : Z) (dash_distance : Q) : pyval :=
  PDict
    [ ("root_delta",
        PDict [ ("x", PFloat (inject_Z direction * dash_distance));
                ("y", PInt (-6)) ]);
      ("notes",
        PList [ PStr "Dash should be a single non-repeating impulse." ]);
      ("ik_targets",
        PDict
          [ ("lead_foot",
              PDict [ ("dx", PFloat (inject_Z direction
                                     * (dash_distance * (53 # 100))));
                      ("dy", PInt (-4)) ]);
            ("trail_foot",
              PDict [ ("dx", PInt (- direction * 12)); ("dy", PInt 0) ]);
            ("lead_hand",
              PDict [ ("dx", PInt (direction * 30)); ("dy", PInt (-12)) ]);
            ("trail_hand",
              PDict [ ("dx", PInt (- direction * 30)); ("dy", PInt 6) ]) ])
    ]%string.

Definition build_payload (action mode : string)
    (stride lift jump_height nudge_step crouch_drop dash_distance : Q)
  : result pyval :=
  if String.eqb action "nudge_up" then
    Ok (_nudge_payload (PInt 0) (PFloat (- nudge_step)))
  else if String.eqb action "nudge_down" then
    Ok (_nudge_payload (PInt 0) (PFloat nudge_step))
  else if String.eqb action "walk_left" then
    Ok (_walk_payload (-1) mode stride lift)
  else if String.eqb action "walk_right" then
    Ok (_walk_payload 1 mode stride lift)
  else if String.eqb action "run_left" then
    Ok (_run_payload (-1) mode stride lift)
  else if String.eqb action "run_right" then
    Ok (_run_payload 1 mode stride lift)
  else if String.eqb action "jump" then
    Ok (_jump_payload mode jump_height)
  else if String.eqb action "crouch_enter" then
    Ok (_crouch_payload true crouch_drop)
  else if String.eqb action "crouch_exit" then
    Ok (_crouch_payload false crouch_drop)
  else if String.eqb action "dash_left" then
    Ok (_dash_payload (-1) dash_distance)
  else if String.eqb action "dash_right" then
    Ok (_dash_payload 1 dash_distance)
  else Raise ValueError.

(** The [choices] list of the [--action] argument in [parse_args]. *)
Definition action_choices : list string :=
  [ "nudge_up"; "nudge_down"; "walk_left"; "walk_right"; "run_left";
    "run_right"; "jump"; "crouch_enter"; "crouch_exit"; "dash_left";
    "dash_right" ]%string.

(** ** Reading a payload *)

(** The value reached by following the keys of [path] through nested
    dictionaries. *)
Fixpoint lookup_path (path : list string) (v : pyval) : option pyval :=
  match path with
  | [] => Some v
  | key :: path' =>
      match v with
      | PDict d =>
          match dict_get key d with
          | Some v' => lookup_path path' v'
          | None => None
          end
      | _ => None
      end
  end.

(** The number a JSON number denotes. *)
Definition number_of (v : pyval) : option Q :=
  match v with
  | PInt z => Some (inject_Z z)
  | PFloat q => Some q
  | _ => None
  end.

Definition number_at (path : list string) (v : pyval) : option Q :=
  match lookup_path path v with
  | Some n => number_of n
  | None => None
  end.

(** The paths of the root displacement in a payload. *)
Definition root_x : list string := ["root_delta"; "x"]%string.
Definition root_y : list string := ["root_delta"; "y"]%string.

(** Values that [float] converts exactly and without consulting the string
    parser: floats, booleans, and integers of magnitude at most 2^53. *)
Definition is_number (v : pyval) : bool :=
  match v with
  | PBool _ | PFloat _ => true
  | PInt z => (Z.abs z <=? 2 ^ 53)%Z
  | _ => false
  end.

(** The item that stores one frame as a bare person record. *)
Definition person_item (frame : list Q) : pyval :=
  PDict [ ("pose_keypoints_2d"%string, PList (map PFloat frame)) ].

(** The constant keys, in the order of the dictionary literal. *)
Definition constant_keys : list string :=
  [ "WALK_SWING_FORWARD_PX"; "WALK_SWING_LIFT_PX"; "RUN_SWING_FORWARD_PX";
    "RUN_SWING_LIFT_PX"; "JUMP_HEIGHT_PX"; "CROUCH_ROOT_DROP_PX";
    "DASH_ROOT_ADVANCE_PX"; "DASH_FOOT_DRIVE_PX"; "ROOT_NUDGE_STEP_PX";
    "REFERENCE_BODY_SPAN_PX" ]%string.

(** * Properties *)

Lemma Ok_inj {A : Type} (a b : A) : Ok a = Ok b -> a = b.
Proof. intros H. now injection H. Qed.

(** ** Order and clamping *)

Lemma Qltb_lt (a b : Q) : Qltb a b = true <-> a < b.
Proof.
  unfold Qltb. rewrite Qlt_alt.
  destruct (Qcompare a b); split; intro H; congruence.
Qed.

Lemma Qltb_ge (a b : Q) : Qltb a b = false <-> b <= a.
Proof.
  rewrite <- Bool.not_true_iff_false, Qltb_lt.
  split; [apply Qnot_lt_le | apply Qle_not_lt].
Qed.

Lemma py_max_lower (a b : Q) : a <= py_max a b.
Proof.
  unfold py_max. destruct (Qltb a b) eqn:E.
  - apply Qltb_lt in E. lra.
  - lra.
Qed.

Lemma py_max_upper (a b hi : Q) : a <= hi -> b <= hi -> py_max a b <= hi.
Proof. unfold py_max. destruct (Qltb a b); auto. Qed.

Lemma py_min_upper (a b : Q) : py_min a b <= a.
Proof.
  unfold py_min. destruct (Qltb b a) eqn:E.
  - apply Qltb_lt in E. lra.
  - lra.
Qed.

Lemma _clamp_range (value lo hi : Q) :
  lo <= hi -> lo <= _clamp value lo hi <= hi.
Proof.
  intros Hlh. unfold _clamp. split.
  - apply py_max_lower.
  - apply py_max_upper; [exact Hlh | apply py_min_upper].
Qed.

(** ** Rounding to two decimals *)

Lemma round_half_even_floor (q : Q) :
  (Qfloor q <= round_half_even q <= Qfloor q + 1)%Z.
Proof.
  unfold round_half_even.
  destruct (Qcompare (q - inject_Z (Qfloor q)) (1 # 2));
    try destruct (Z.even (Qfloor q)); lia.
Qed.

Lemma round_half_even_lower (q : Q) (n : Z) :
  inject_Z n <= q -> (n <= round_half_even q)%Z.
Proof.
  intros H. apply Qfloor_resp_le in H. rewrite Qfloor_Z in H.
  pose proof (round_half_even_floor q). lia.
Qed.

Lemma round_half_even_upper (q : Q) (n : Z) :
  q <= inject_Z n -> (round_half_even q <= n)%Z.
Proof.
  intros H.
  assert (Hf : (Qfloor q <= n)%Z).
  { apply Qfloor_resp_le in H. now rewrite Qfloor_Z in H. }
  destruct (Z.eq_dec (Qfloor q) n) as [E | NE].
  - assert (Hq : q - inject_Z (Qfloor q) < 1 # 2).
    { pose proof (Qfloor_le q) as Hl. rewrite E in Hl |- *.
      generalize dependent (inject_Z n). intros z Hz Hl. lra. }
    unfold round_half_even.
    destruct (Qcompare (q - inject_Z (Qfloor q)) (1 # 2)) eqn:C.
    + apply Qeq_alt in C. lra.
    + lia.
    + apply Qgt_alt in C. lra.
  - pose proof (round_half_even_floor q). lia.
Qed.

Lemma py_round2_range (v : Q) (lo hi : Z) :
  inject_Z lo <= v <= inject_Z hi ->
  inject_Z lo <= py_round2 v <= inject_Z hi.
Proof.
  intros [Hl Hh]. unfold py_round2.
  assert (L : (lo * 100 <= round_half_even (v * 100))%Z).
  { apply round_half_even_lower. rewrite inject_Z_mult.
    change (inject_Z 100) with 100. lra. }
  assert (U : (round_half_even (v * 100) <= hi * 100)%Z).
  { apply round_half_even_upper. rewrite inject_Z_mult.
    change (inject_Z 100) with 100. lra. }
  unfold Qle, inject_Z. simpl. lia.
Qed.

Lemma round_clamp_range (value : Q) (lo hi : Z) :
  (lo <= hi)%Z ->
  inject_Z lo <= py_round2 (_clamp value (inject_Z lo) (inject_Z hi))
    <= inject_Z hi.
Proof.
  intros H. apply py_round2_range, _clamp_range.
  now rewrite <- Zle_Qle.
Qed.

(** ** The clamp ranges of the ten constants *)

Ltac in_range_tac :=
  eexists; split; [reflexivity | ];
  match goal with
  | |- ?lo <= py_round2 (_clamp ?v ?lo ?hi) <= ?hi =>
      let zl := eval vm_compute in (Qnum lo) in
      let zh := eval vm_compute in (Qnum hi) in
      change lo with (inject_Z zl); change hi with (inject_Z zh);
      apply round_clamp_range; lia
  end.

(** C1: whenever [derive_motion_constants] succeeds, each of the ten
    returned constants, after rounding to two decimals, lies within its
    declared clamp range, bounds included. *)
Theorem constants_within_clamp_ranges :
  forall (frames : list (list Q)) (min_conf : Q) (cs : list (string * Q)),
    derive_motion_constants frames min_conf = Ok cs ->
    in_range cs "WALK_SWING_FORWARD_PX" 20 72 /\
    in_range cs "WALK_SWING_LIFT_PX" 14 42 /\
    in_range cs "RUN_SWING_FORWARD_PX" 34 112 /\
    in_range cs "RUN_SWING_LIFT_PX" 20 64 /\
    in_range cs "JUMP_HEIGHT_PX" 24 120 /\
    in_range cs "CROUCH_ROOT_DROP_PX" 16 56 /\
    in_range cs "DASH_ROOT_ADVANCE_PX" 42 140 /\
    in_range cs "DASH_FOOT_DRIVE_PX" 24 74 /\
    in_range cs "ROOT_NUDGE_STEP_PX" 8 26 /\
    in_range cs "REFERENCE_BODY_SPAN_PX" 40 240.
Proof.
  intros frames min_conf cs H.
  unfold derive_motion_constants in H.
  destruct (collect_midpoints frames min_conf [] []) as [[hips shoulders] | e];
    simpl in H; [ | discriminate].
  destruct (len hips <? 2)%Z; [discriminate | ].
  unfold synthesize in H.
  destruct (_stride_stats (map fst hips)) as [[walk run] | e];
    simpl in H; [ | discriminate].
  destruct (_dash_distance (map fst hips)) as [dash | e];
    simpl in H; [ | discriminate].
  destruct (py_getitem (map snd hips) 0) as [y0 | e];
    simpl in H; [ | discriminate].
  destruct (py_min_list (map snd hips)) as [lo_y | e];
    simpl in H; [ | discriminate].
  destruct (py_max_list (map snd hips)) as [hi_y | e];
    simpl in H; [ | discriminate].
  destruct (mapM _ _) as [spans | e]; simpl in H; [ | discriminate].
  injection H as <-.
  unfold in_range.
  repeat split; try in_range_tac.
Qed.

Lemma constants_within_clamp_ranges_witness :
  exists cs,
    derive_motion_constants walking_frames (2 # 10) = Ok cs /\
    in_range cs "WALK_SWING_FORWARD_PX" 20 72 /\
    in_range cs "REFERENCE_BODY_SPAN_PX" 40 240.
Proof.
  eexists. split.
  - vm_compute. reflexivity.
  - pose proof (constants_within_clamp_ranges walking_frames (2 # 10) _
                  eq_refl) as H.
    split; [apply H | apply H].
Defined.

(** ** Insufficient samples *)

(** C2: when fewer than two hip midpoint samples pass the confidence gate,
    [derive_motion_constants] raises [ValueError]; the result carries no
    constants at all. *)
Theorem too_few_hip_samples_raise :
  forall (frames : list (list Q)) (min_conf : Q)
         (hip_midpoints shoulder_midpoints : list (Q * Q)),
    collect_midpoints frames min_conf [] []
      = Ok (hip_midpoints, shoulder_midpoints) ->
    (length hip_midpoints < 2)%nat ->
    derive_motion_constants frames min_conf = Raise ValueError /\
    forall cs, derive_motion_constants frames min_conf <> Ok cs.
Proof.
  intros frames min_conf hips shoulders Hc Hlen.
  assert (E : derive_motion_constants frames min_conf = Raise ValueError).
  { unfold derive_motion_constants. rewrite Hc. simpl.
    replace (len hips <? 2)%Z with true; [reflexivity | ].
    symmetry. apply Z.ltb_lt. unfold len. lia. }
  split; [exact E | ].
  intros cs. rewrite E. discriminate.
Qed.

Lemma too_few_hip_samples_raise_witness :
  derive_motion_constants [pose_frame 100 400 1 0 0 0] (2 # 10)
    = Raise ValueError.
Proof.
  refine (proj1 (too_few_hip_samples_raise
                   [pose_frame 100 400 1 0 0 0] (2 # 10)
                   [(200 # 2, 800 # 2)] [] _ _)).
  - vm_compute. reflexivity.
  - simpl. lia.
Defined.

(** ** Indexing and comprehensions *)

Lemma py_getitem_nth {A : Type} (l : list A) (i : nat) (d : A) :
  (i < length l)%nat -> py_getitem l (Z.of_nat i) = Ok (nth i l d).
Proof.
  intros Hi. unfold py_getitem.
  assert (E : (Z.of_nat i <? 0)%Z = false) by (apply Z.ltb_ge; lia).
  cbv zeta. rewrite E, E, Nat2Z.id.
  now rewrite (nth_error_nth' l d Hi).
Qed.

Lemma py_getitem_app {A : Type} (pre : list A) (x : A) (t : list A) :
  py_getitem (pre ++ x :: t) (Z.of_nat (length pre)) = Ok x.
Proof.
  rewrite (py_getitem_nth _ _ x).
  - now rewrite nth_middle.
  - rewrite length_app. simpl. lia.
Qed.

Lemma py_range_of_nat (n : nat) :
  py_range (Z.of_nat n) = map Z.of_nat (seq 0 n).
Proof. unfold py_range. now rewrite Nat2Z.id. Qed.

Lemma py_range_len_pred {A : Type} (l : list A) :
  py_range (len l - 1) = map Z.of_nat (seq 0 (length l - 1)).
Proof.
  unfold py_range, len. f_equal. f_equal. lia.
Qed.

Lemma mapM_then_map {A B C : Type} (f : A -> result B) (g : B -> C)
    (l : list A) (bs : list B) :
  mapM f l = Ok bs ->
  mapM (fun a => b <- f a ;; Ok (g b)) l = Ok (map g bs).
Proof.
  revert bs. induction l as [ | a l IH]; intros bs H; simpl in *.
  - injection H as <-. reflexivity.
  - destruct (f a) as [b | e]; simpl in *; [ | discriminate].
    destruct (mapM f l) as [bs' | e]; simpl in *; [ | discriminate].
    injection H as <-. rewrite (IH bs' eq_refl). reflexivity.
Qed.

(** The index comprehension over [range(len(hip_x) - 1)] never leaves the
    list and produces the pairwise differences. *)
Lemma deltas_from (pre l : list Q) :
  mapM (delta_at (pre ++ l))
       (map Z.of_nat (seq (length pre) (length l - 1)))
  = Ok (spec_deltas l).
Proof.
  revert pre. induction l as [ | x0 t IH]; intros pre.
  - reflexivity.
  - destruct t as [ | x1 t'].
    + reflexivity.
    + change (length (x0 :: x1 :: t') - 1)%nat with (S (length t')).
      cbn [seq map mapM].
      assert (D : delta_at (pre ++ x0 :: x1 :: t') (Z.of_nat (length pre))
                  = Ok (x1 - x0)).
      { unfold delta_at.
        replace (Z.of_nat (length pre) + 1)%Z
          with (Z.of_nat (length (pre ++ [x0]))) at 1
          by (rewrite length_app; simpl; lia).
        replace (pre ++ x0 :: x1 :: t') with ((pre ++ [x0]) ++ x1 :: t') at 1
          by (now rewrite <- app_assoc).
        rewrite py_getitem_app. simpl.
        rewrite py_getitem_app. reflexivity. }
      rewrite D. simpl.
      specialize (IH (pre ++ [x0])).
      rewrite <- app_assoc in IH. simpl in IH.
      replace (length (pre ++ [x0])) with (S (length pre)) in IH
        by (rewrite length_app; simpl; lia).
      replace (length t' - 0)%nat with (length t') in IH by lia.
      rewrite IH. reflexivity.
Qed.

Lemma deltas_ok (hip_x : list Q) :
  mapM (delta_at hip_x) (py_range (len hip_x - 1)) = Ok (spec_deltas hip_x).
Proof.
  rewrite py_range_len_pred. exact (deltas_from [] hip_x).
Qed.

Lemma spec_deltas_length (H : list Q) :
  length (spec_deltas H) = (length H - 1)%nat.
Proof.
  induction H as [ | x0 t IH]; [reflexivity | ].
  destruct t as [ | x1 t']; [reflexivity | ].
  change (spec_deltas (x0 :: x1 :: t'))
    with ((x1 - x0) :: spec_deltas (x1 :: t')).
  cbn [length] in *. lia.
Qed.

(** ** [sorted] is an ascending sort *)

Lemma insert_sorted_perm (x : Q) (l : list Q) :
  Permutation (insert_sorted x l) (x :: l).
Proof.
  induction l as [ | y l IH]; simpl.
  - apply Permutation_refl.
  - destruct (Qltb y x).
    + rewrite IH. apply perm_swap.
    + apply Permutation_refl.
Qed.

Lemma sorted_perm (l : list Q) : Permutation (sorted l) l.
Proof.
  induction l as [ | x l IH]; simpl.
  - apply Permutation_refl.
  - rewrite insert_sorted_perm. now apply perm_skip.
Qed.

Lemma sorted_length (l : list Q) : length (sorted l) = length l.
Proof. apply Permutation_length, sorted_perm. Qed.

Lemma insert_sorted_ascending (x : Q) (l : list Q) :
  StronglySorted Qle l -> StronglySorted Qle (insert_sorted x l).
Proof.
  induction 1 as [ | y l Hs IH Hy]; simpl.
  - repeat constructor.
  - destruct (Qltb y x) eqn:E.
    + apply Qltb_lt in E. constructor; [exact IH | ].
      apply (Permutation_Forall (Permutation_sym (insert_sorted_perm x l))).
      constructor; [lra | exact Hy].
    + apply Qltb_ge in E. constructor.
      * now constructor.
      * constructor; [exact E | ].
        eapply Forall_impl; [ | exact Hy]. intros z Hz. simpl in Hz. lra.
Qed.

Lemma sorted_ascending (l : list Q) : StronglySorted Qle (sorted l).
Proof.
  induction l as [ | x l IH]; simpl.
  - constructor.
  - now apply insert_sorted_ascending.
Qed.

(** ** The percentile index *)

Lemma py_int_p90 (k : Z) :
  (0 <= k)%Z ->
  py_int ((9 # 10) * inject_Z k) = Qfloor ((9 # 10) * inject_Z k) /\
  (0 <= py_int ((9 # 10) * inject_Z k) <= k)%Z.
Proof.
  intros Hk. unfold py_int, Qfloor, Qmult, inject_Z. cbn [Qnum Qden].
  rewrite Pos.mul_1_r, Z.quot_div_nonneg by lia.
  split; [reflexivity | ].
  split.
  - apply Z.div_pos; lia.
  - apply Z.div_le_upper_bound; lia.
Qed.

Lemma py_max_Qmax (a b : Q) : py_max a b = Qmax a b.
Proof.
  unfold py_max, Qltb, Qmax, GenericMinMax.gmax.
  now destruct (Qcompare a b).
Qed.

(** [_dash_distance] on at least two samples: the comprehension succeeds,
    the sorted list is not empty and the percentile index addresses it. *)
Lemma dash_distance_eval (hip_x : list Q) :
  (2 <= length hip_x)%nat ->
  let s := sorted (map Qabs (spec_deltas hip_x)) in
  let idx := spec_p90_index (length s) in
  s <> [] /\ (idx < length s)%nat /\
  py_getitem s (py_int ((9 # 10) * inject_Z (len s - 1)))
    = Ok (nth idx s 0) /\
  _dash_distance hip_x = Ok (py_max 48 (nth idx s 0 * (45 # 10))).
Proof.
  intros Hlen s idx.
  assert (Hs : length s = (length hip_x - 1)%nat).
  { unfold s. now rewrite sorted_length, length_map, spec_deltas_length. }
  assert (Hne : s <> []).
  { intros E. rewrite E in Hs. simpl in Hs. lia. }
  destruct (py_int_p90 (len s - 1)) as [Hfl [H0 Hk]];
    [unfold len; lia | ].
  assert (Hidx : (idx < length s)%nat).
  { unfold idx, spec_p90_index. fold (len s). rewrite <- Hfl.
    unfold len in *. lia. }
  assert (Hget : py_getitem s (py_int ((9 # 10) * inject_Z (len s - 1)))
                 = Ok (nth idx s 0)).
  { rewrite <- (py_getitem_nth s idx 0 Hidx). f_equal.
    unfold idx, spec_p90_index. fold (len s). rewrite <- Hfl.
    now rewrite Z2Nat.id. }
  repeat split; try assumption.
  unfold _dash_distance.
  rewrite (mapM_then_map _ Qabs _ _ (deltas_ok hip_x)). simpl.
  fold s. destruct s as [ | d0 s'] eqn:Es; [congruence | ].
  rewrite Hget. reflexivity.
Qed.

(** ** The ascending arrangement is unique up to equality of numbers *)

Lemma Qltb_compat (a a' b b' : Q) :
  a == a' -> b == b' -> Qltb a b = Qltb a' b'.
Proof.
  intros Ha Hb.
  destruct (Qltb a b) eqn:E1; destruct (Qltb a' b') eqn:E2; try reflexivity.
  - apply Qltb_lt in E1. apply Qltb_ge in E2. lra.
  - apply Qltb_ge in E1. apply Qltb_lt in E2. lra.
Qed.

Lemma Forall2_Qeq_refl (l : list Q) : Forall2 Qeq l l.
Proof. induction l; constructor; [reflexivity | assumption]. Qed.

Lemma Forall2_Qeq_trans (l1 l2 l3 : list Q) :
  Forall2 Qeq l1 l2 -> Forall2 Qeq l2 l3 -> Forall2 Qeq l1 l3.
Proof.
  intros H12. revert l3.
  induction H12 as [ | a b l1 l2 Hab _ IH]; intros l3 H23.
  - exact H23.
  - inversion H23 as [ | ? c ? l3' Hbc H23']; subst.
    constructor; [now rewrite Hab | now apply IH].
Qed.

Lemma Forall2_Qeq_nth (l1 l2 : list Q) (i : nat) :
  Forall2 Qeq l1 l2 -> nth i l1 0 == nth i l2 0.
Proof.
  intros H. revert i.
  induction H as [ | a b l1 l2 Hab _ IH]; intros [ | i]; simpl;
    try reflexivity; [exact Hab | apply IH].
Qed.

Lemma insert_sorted_compat (x x' : Q) (l l' : list Q) :
  x == x' -> Forall2 Qeq l l' ->
  Forall2 Qeq (insert_sorted x l) (insert_sorted x' l').
Proof.
  intros Hx H.
  induction H as [ | y y' l l' Hy Hl IH]; simpl.
  - now repeat constructor.
  - rewrite (Qltb_compat y y' x x' Hy Hx).
    destruct (Qltb y' x'); repeat (constructor; try assumption).
Qed.

Lemma insert_sorted_two (x y : Q) (l : list Q) :
  Forall2 Qeq (if Qltb y x then y :: x :: l else x :: y :: l)
              (if Qltb x y then x :: y :: l else y :: x :: l).
Proof.
  destruct (Qltb y x) eqn:E1; destruct (Qltb x y) eqn:E2;
    try apply Forall2_Qeq_refl.
  - apply Qltb_lt in E1. apply Qltb_lt in E2. lra.
  - apply Qltb_ge in E1. apply Qltb_ge in E2.
    assert (E : x == y) by lra.
    constructor; [exact E | ].
    constructor; [now symmetry | apply Forall2_Qeq_refl].
Qed.

Lemma insert_sorted_comm (x y : Q) (l : list Q) :
  Forall2 Qeq (insert_sorted x (insert_sorted y l))
              (insert_sorted y (insert_sorted x l)).
Proof.
  induction l as [ | z l IH].
  - simpl. apply insert_sorted_two.
  - simpl. destruct (Qltb z y) eqn:Ezy; destruct (Qltb z x) eqn:Ezx; simpl;
      rewrite ?Ezy, ?Ezx.
    + constructor; [reflexivity | exact IH].
    + assert (Exy : Qltb x y = true).
      { apply Qltb_lt. apply Qltb_lt in Ezy. apply Qltb_ge in Ezx. lra. }
      rewrite Exy. simpl. rewrite ?Ezy. apply Forall2_Qeq_refl.
    + assert (Eyx : Qltb y x = true).
      { apply Qltb_lt. apply Qltb_lt in Ezx. apply Qltb_ge in Ezy. lra. }
      rewrite Eyx. simpl. rewrite ?Ezx. apply Forall2_Qeq_refl.
    + apply insert_sorted_two.
Qed.

Lemma sorted_respects_perm (l1 l2 : list Q) :
  Permutation l1 l2 -> Forall2 Qeq (sorted l1) (sorted l2).
Proof.
  induction 1 as [ | x l1 l2 _ IH | x y l | l1 l2 l3 _ IH1 _ IH2]; simpl.
  - constructor.
  - apply insert_sorted_compat; [reflexivity | exact IH].
  - apply insert_sorted_comm.
  - eapply Forall2_Qeq_trans; eassumption.
Qed.

Lemma sorted_fixes_ascending (s : list Q) :
  StronglySorted Qle s -> sorted s = s.
Proof.
  induction 1 as [ | x s Hs IH Hx]; simpl; [reflexivity | ].
  rewrite IH. destruct s as [ | y s']; [reflexivity | ].
  simpl. inversion Hx as [ | ? ? Hxy _]; subst.
  replace (Qltb y x) with false; [reflexivity | ].
  symmetry. now apply Qltb_ge.
Qed.

Lemma ascending_arrangement_unique (s l : list Q) :
  StronglySorted Qle s -> Permutation s l -> Forall2 Qeq s (sorted l).
Proof.
  intros Hs Hp. rewrite <- (sorted_fixes_ascending s Hs) at 1.
  now apply sorted_respects_perm.
Qed.

Lemma py_max_compat (a b b' : Q) : b == b' -> py_max a b == py_max a b'.
Proof.
  intros Hb. unfold py_max.
  rewrite (Qltb_compat a a b b' (Qeq_refl a) Hb).
  destruct (Qltb a b'); [exact Hb | reflexivity].
Qed.

(** ** Dash distance *)

(** C7: on a hip-x sequence of at least two samples the raw dash distance
    is [max(48.0, s[floor(0.9 * (count - 1))] * 4.5)] for every ascending
    arrangement [s] of the absolute frame-to-frame deltas, [count] being its
    length; the index addresses an element of [s]. *)
Theorem dash_distance_is_p90 :
  forall hip_x s : list Q,
    (2 <= length hip_x)%nat ->
    Permutation s (map Qabs (spec_deltas hip_x)) ->
    StronglySorted Qle s ->
    (spec_p90_index (length s) < length s)%nat /\
    exists dash : Q,
      _dash_distance hip_x = Ok dash /\
      dash == Qmax 48 (nth (spec_p90_index (length s)) s 0 * (45 # 10)).
Proof.
  intros hip_x s Hlen Hp Hs.
  destruct (dash_distance_eval hip_x Hlen) as [_ [Hidx [_ Hd]]].
  pose proof (ascending_arrangement_unique s _ Hs Hp) as Hu.
  assert (Hl : length s = length (sorted (map Qabs (spec_deltas hip_x))))
    by (exact (Forall2_length Hu)).
  rewrite Hl. split; [exact Hidx | ].
  eexists. split; [exact Hd | ].
  rewrite <- py_max_Qmax. apply py_max_compat.
  rewrite (Forall2_Qeq_nth _ _ _ Hu). reflexivity.
Qed.

Lemma dash_distance_is_p90_witness :
  exists dash : Q,
    _dash_distance [100; 130; 95] = Ok dash /\
    dash == Qmax 48 (nth (spec_p90_index 2) [30; 35] 0 * (45 # 10)).
Proof.
  refine (proj2 (dash_distance_is_p90 [100; 130; 95] [30; 35] _ _ _)).
  - simpl. lia.
  - apply Permutation_refl.
  - repeat constructor; unfold Qle; simpl; lia.
Defined.

(** C9: with at least two hip midpoint samples the list of deltas in
    [_dash_distance] is never empty, so the branch returning 64.0 is not
    taken: the result is [max(48.0, p90 * 4.5)] for an element [p90] of the
    deltas, and it is at least 48.0. *)
Theorem dash_fallback_unreachable :
  forall hip_midpoints : list (Q * Q),
    (2 <= length hip_midpoints)%nat ->
    let hip_x := map fst hip_midpoints in
    exists (ds : list Q) (p90 : Q),
      mapM (fun i => d <- delta_at hip_x i ;; Ok (Qabs d))
           (py_range (len hip_x - 1)) = Ok ds /\
      sorted ds <> [] /\
      In p90 (sorted ds) /\
      _dash_distance hip_x = Ok (py_max 48 (p90 * (45 # 10))) /\
      48 <= py_max 48 (p90 * (45 # 10)).
Proof.
  intros hips Hlen hip_x.
  assert (Hx : (2 <= length hip_x)%nat)
    by (unfold hip_x; now rewrite length_map).
  destruct (dash_distance_eval hip_x Hx) as [Hne [Hidx [_ Hd]]].
  exists (map Qabs (spec_deltas hip_x)).
  eexists.
  split; [exact (mapM_then_map _ Qabs _ _ (deltas_ok hip_x)) | ].
  split; [exact Hne | ].
  split; [apply nth_In; exact Hidx | ].
  split; [exact Hd | apply py_max_lower].
Qed.

Lemma dash_fallback_unreachable_witness :
  exists (ds : list Q) (p90 : Q),
    mapM (fun i => d <- delta_at [100; 130] i ;; Ok (Qabs d))
         (py_range (len [100; 130] - 1)) = Ok ds /\
    sorted ds <> [] /\
    In p90 (sorted ds) /\
    _dash_distance [100; 130] = Ok (py_max 48 (p90 * (45 # 10))) /\
    48 <= py_max 48 (p90 * (45 # 10)).
Proof.
  apply (dash_fallback_unreachable [(100, 400); (130, 400)]). simpl. lia.
Defined.

(** ** Medians *)

Lemma nth_Forall (P : Q -> Prop) (l : list Q) (i : nat) (d : Q) :
  Forall P l -> P d -> P (nth i l d).
Proof.
  intros Hl Hd. destruct (Nat.lt_ge_cases i (length l)) as [Hi | Hi].
  - rewrite Forall_forall in Hl. apply Hl. now apply nth_In.
  - now rewrite nth_overflow.
Qed.

(** A property of numbers that holds of 0 and of the mean of two numbers
    that have it is inherited by the median of a list whose elements all
    have it. *)
Lemma statistics_median_closed (P : Q -> Prop) (l : list Q) :
  P 0 ->
  (forall a b, P a -> P b -> P ((a + b) / 2)) ->
  Forall P l -> P (statistics_median l).
Proof.
  intros H0 Hmean Hl.
  assert (Hs : Forall P (sorted l)).
  { apply (Permutation_Forall (Permutation_sym (sorted_perm l))), Hl. }
  unfold statistics_median.
  destruct (Nat.odd (length (sorted l))).
  - now apply nth_Forall.
  - apply Hmean; now apply nth_Forall.
Qed.

Lemma _median_singleton (v fallback : Q) : _median [v] fallback = v.
Proof. reflexivity. Qed.

Lemma _median_nonneg (l : list Q) (fallback : Q) :
  0 <= fallback -> Forall (fun x => 0 <= x) l -> 0 <= _median l fallback.
Proof.
  intros Hf Hl. destruct l as [ | x l']; [exact Hf | ].
  change (_median (x :: l') fallback) with (statistics_median (x :: l')).
  apply (statistics_median_closed (fun q => 0 <= q)); try assumption.
  - lra.
  - intros a b Ha Hb.
    assert (E : (a + b) / 2 == (a + b) * (1 # 2)) by field.
    rewrite E. nra.
Qed.

Lemma Qabs_nonneg_eq (x : Q) : 0 <= x -> Qabs x = x.
Proof.
  destruct x as [n d]. unfold Qle. simpl. intros H.
  f_equal. apply Z.abs_eq. lia.
Qed.

(** ** Stride statistics *)

Lemma stride_stats_eval (hip_x : list Q) :
  let abs_deltas :=
    map Qabs (filter (fun d => Qltb (1 # 1000000) (Qabs d))
                     (spec_deltas hip_x)) in
  _stride_stats hip_x
  = Ok (_median abs_deltas 30 * (21 # 10),
        _median abs_deltas 30 * (21 # 10) * (165 # 100)).
Proof.
  unfold _stride_stats. now rewrite deltas_ok.
Qed.

Lemma walk_stride_nonneg (hip_x : list Q) (walk run : Q) :
  _stride_stats hip_x = Ok (walk, run) -> 0 <= walk.
Proof.
  rewrite stride_stats_eval. intros H. injection H as <- _.
  assert (0 <= _median
            (map Qabs (filter (fun d => Qltb (1 # 1000000) (Qabs d))
                              (spec_deltas hip_x))) 30).
  { apply _median_nonneg; [lra | ].
    apply Forall_forall. intros x Hx. apply in_map_iff in Hx.
    destruct Hx as [d [<- _]]. apply Qabs_nonneg. }
  nra.
Qed.

(** ** Root nudge step *)

(** C10: on every successful run [ROOT_NUDGE_STEP_PX] is
    [round(clamp(walk_stride * 0.42 * 0.18, 8.0, 26.0), 2)], a function of
    the walk stride alone: the one-element median returns its element, and
    the absolute value leaves a stride, which is never negative, as it is. *)
Theorem root_nudge_from_walk_stride :
  forall (frames : list (list Q)) (min_conf : Q) (cs : list (string * Q)),
    derive_motion_constants frames min_conf = Ok cs ->
    exists (hip_midpoints shoulder_midpoints : list (Q * Q))
           (walk_stride run_stride : Q),
      collect_midpoints frames min_conf [] []
        = Ok (hip_midpoints, shoulder_midpoints) /\
      _stride_stats (map fst hip_midpoints) = Ok (walk_stride, run_stride) /\
      constant "ROOT_NUDGE_STEP_PX" cs
        = Some (py_round2
                  (_clamp (walk_stride * px_to_world * (18 # 100)) 8 26)).
Proof.
  intros frames min_conf cs H.
  unfold derive_motion_constants in H.
  destruct (collect_midpoints frames min_conf [] []) as [[hips shoulders] | e];
    cbn [bind fst snd] in H; [ | discriminate].
  destruct (len hips <? 2)%Z; [discriminate | ].
  unfold synthesize in H.
  destruct (_stride_stats (map fst hips)) as [[walk run] | e] eqn:Es;
    cbn [bind fst snd] in H; [ | discriminate].
  destruct (_dash_distance (map fst hips)) as [dash | e];
    cbn [bind fst snd] in H; [ | discriminate].
  destruct (py_getitem (map snd hips) 0) as [y0 | e];
    cbn [bind fst snd] in H; [ | discriminate].
  destruct (py_min_list (map snd hips)) as [lo_y | e];
    cbn [bind fst snd] in H; [ | discriminate].
  destruct (py_max_list (map snd hips)) as [hi_y | e];
    cbn [bind fst snd] in H; [ | discriminate].
  destruct (mapM _ _) as [spans | e]; cbn [bind fst snd] in H; [ | discriminate].
  apply Ok_inj in H. subst cs.
  exists hips, shoulders, walk, run.
  split; [reflexivity | ]. split; [exact Es | ].
  pose proof (walk_stride_nonneg _ _ _ Es) as Hw.
  cbn [constant String.eqb Ascii.eqb Bool.eqb fst snd map].
  rewrite _median_singleton, Qabs_nonneg_eq; [reflexivity | ].
  unfold px_to_world. nra.
Qed.

Lemma root_nudge_from_walk_stride_witness :
  exists (cs : list (string * Q)) (hip_midpoints shoulder_midpoints : list (Q * Q))
         (walk_stride run_stride : Q),
    derive_motion_constants walking_frames (2 # 10) = Ok cs /\
    collect_midpoints walking_frames (2 # 10) [] []
      = Ok (hip_midpoints, shoulder_midpoints) /\
    _stride_stats (map fst hip_midpoints) = Ok (walk_stride, run_stride) /\
    constant "ROOT_NUDGE_STEP_PX" cs
      = Some (py_round2
                (_clamp (walk_stride * px_to_world * (18 # 100)) 8 26)).
Proof.
  eexists.
  assert (E : derive_motion_constants walking_frames (2 # 10) = Ok _)
    by (vm_compute; reflexivity).
  destruct (root_nudge_from_walk_stride walking_frames (2 # 10) _ E)
    as [h [s [w [r [H1 [H2 H3]]]]]].
  exists h, s, w, r. repeat split; eassumption.
Defined.

(** ** Reference body span *)

Lemma mapM_ok_map_nat {B : Type} (f : Z -> result B) (g : nat -> B)
    (l : list nat) :
  (forall i, In i l -> f (Z.of_nat i) = Ok (g i)) ->
  mapM f (map Z.of_nat l) = Ok (map g l).
Proof.
  induction l as [ | i l IH]; intros H; simpl.
  - reflexivity.
  - rewrite (H i (or_introl eq_refl)). simpl.
    rewrite IH by (intros j Hj; apply H; now right).
    reflexivity.
Qed.

Lemma spans_ok (hip_y shoulder_y : list Q) :
  shoulder_y <> [] ->
  mapM (span_at hip_y shoulder_y) (py_range (len hip_y))
  = Ok (spec_spans hip_y shoulder_y).
Proof.
  intros Hne. unfold len. rewrite py_range_of_nat.
  apply mapM_ok_map_nat. intros i Hi. apply in_seq in Hi.
  assert (Hs : (0 < length shoulder_y)%nat).
  { destruct shoulder_y; [congruence | simpl; lia]. }
  unfold span_at.
  rewrite (py_getitem_nth hip_y i 0) by lia. cbn [bind].
  replace (Z.min (Z.of_nat i) (len shoulder_y - 1))
    with (Z.of_nat (Nat.min i (length shoulder_y - 1)))
    by (unfold len; lia).
  rewrite (py_getitem_nth shoulder_y _ 0) by lia.
  reflexivity.
Qed.

(** With at least one hip sample every step of the synthesis succeeds. *)
Lemma dash_distance_total (hip_x : list Q) :
  exists dash, _dash_distance hip_x = Ok dash.
Proof.
  unfold _dash_distance.
  rewrite (mapM_then_map _ Qabs _ _ (deltas_ok _)). cbn [bind].
  destruct (sorted _) as [ | d0 s'] eqn:Es; [now exists 64 | ].
  rewrite <- Es.
  destruct (py_int_p90 (len (sorted (map Qabs (spec_deltas hip_x))) - 1))
    as [_ [H0 Hk]].
  { rewrite Es. unfold len. cbn [length]. lia. }
  set (s := sorted _) in *.
  set (k := py_int _) in *.
  rewrite <- (Z2Nat.id k) by lia.
  rewrite (py_getitem_nth s _ 0) by (unfold len in Hk; lia).
  eexists. reflexivity.
Qed.

Lemma synthesize_eval (hips shoulders : list (Q * Q)) :
  hips <> [] ->
  let hip_x := map fst hips in
  let hip_y := map snd hips in
  let shoulder_y :=
    match shoulders with [] => hip_y | _ :: _ => map snd shoulders end in
  exists (cs : list (string * Q)) (walk run dash : Q),
    _stride_stats hip_x = Ok (walk, run) /\
    _dash_distance hip_x = Ok dash /\
    synthesize hips shoulders = Ok cs /\
    constant "WALK_SWING_FORWARD_PX" cs
      = Some (py_round2 (_clamp (walk * px_to_world) 20 72)) /\
    constant "DASH_ROOT_ADVANCE_PX" cs
      = Some (py_round2 (_clamp (dash * px_to_world) 42 140)) /\
    constant "REFERENCE_BODY_SPAN_PX" cs
      = Some (py_round2
                (_clamp (_median (spec_spans hip_y shoulder_y) 80) 40 240)).
Proof.
  intros Hne hip_x hip_y shoulder_y.
  assert (Hsy : shoulder_y <> []).
  { unfold shoulder_y, hip_y.
    destruct shoulders as [ | s0 ss]; destruct hips; simpl; congruence. }
  destruct (_stride_stats hip_x) as [[walk run] | e] eqn:Es;
    [ | rewrite stride_stats_eval in Es; discriminate].
  destruct (dash_distance_total hip_x) as [dash Ed].
  assert (Hy0 : exists y0 ys, hip_y = y0 :: ys).
  { unfold hip_y. destruct hips as [ | [x0 y0] hips']; [congruence | ].
    now exists y0, (map snd hips'). }
  destruct Hy0 as [y0 [ys Hy]].
  unfold synthesize. fold hip_x. fold hip_y. fold shoulder_y.
  rewrite Es, Ed. cbn [bind fst snd].
  rewrite (spans_ok hip_y shoulder_y Hsy).
  assert (G0 : py_getitem hip_y 0 = Ok y0) by (now rewrite Hy).
  assert (G1 : py_min_list hip_y = Ok (fold_left py_min ys y0))
    by (now rewrite Hy).
  assert (G2 : py_max_list hip_y = Ok (fold_left py_max ys y0))
    by (now rewrite Hy).
  eexists. exists walk, run, dash.
  split; [reflexivity | ]. split; [reflexivity | ].
  rewrite G0, G1, G2. cbn [bind].
  repeat split; reflexivity.
Qed.

Lemma spans_self_zero (hip_y : list Q) :
  Forall (fun x => x == 0) (spec_spans hip_y hip_y).
Proof.
  apply Forall_forall. intros x Hx. unfold spec_spans in Hx.
  apply in_map_iff in Hx. destruct Hx as [i [<- Hi]].
  apply in_seq in Hi.
  replace (Nat.min i (length hip_y - 1)) with i by lia.
  setoid_replace (nth i hip_y 0 - nth i hip_y 0) with 0 by ring.
  reflexivity.
Qed.

Lemma _median_zero (l : list Q) (fallback : Q) :
  l <> [] -> Forall (fun x => x == 0) l -> _median l fallback == 0.
Proof.
  intros Hne Hl. destruct l as [ | x l']; [congruence | ].
  change (_median (x :: l') fallback) with (statistics_median (x :: l')).
  apply (statistics_median_closed (fun q => q == 0)); try assumption.
  - reflexivity.
  - intros a b Ha Hb. rewrite Ha, Hb. reflexivity.
Qed.

Lemma _clamp_below (m lo hi : Q) :
  m <= lo -> lo < hi -> _clamp m lo hi = lo.
Proof.
  intros Hm Hlh. unfold _clamp, py_min, py_max.
  destruct (Qltb m hi) eqn:E1.
  - destruct (Qltb lo m) eqn:E2; [ | reflexivity].
    apply Qltb_lt in E2. lra.
  - apply Qltb_ge in E1. lra.
Qed.

(** C8: when no shoulder midpoint passes the gate the run still succeeds,
    and [REFERENCE_BODY_SPAN_PX] is computed with the hip-y series standing
    in for the shoulder-y series: the median (fallback 80.0) of the
    per-sample absolute distances, clamped to [40, 240] and rounded.  Every
    distance is then zero, so the constant is 40. *)
Theorem reference_span_hip_fallback :
  forall (frames : list (list Q)) (min_conf : Q)
         (hip_midpoints : list (Q * Q)),
    collect_midpoints frames min_conf [] [] = Ok (hip_midpoints, []) ->
    (2 <= length hip_midpoints)%nat ->
    let hip_y := map snd hip_midpoints in
    exists (cs : list (string * Q)) (v : Q),
      derive_motion_constants frames min_conf = Ok cs /\
      constant "REFERENCE_BODY_SPAN_PX" cs = Some v /\
      v = py_round2 (_clamp (_median (spec_spans hip_y hip_y) 80) 40 240) /\
      v == 40.
Proof.
  intros frames min_conf hips Hc Hlen hip_y.
  assert (Hne : hips <> []).
  { intros E. rewrite E in Hlen. simpl in Hlen. lia. }
  destruct (synthesize_eval hips [] Hne)
    as [cs [walk [run [dash [_ [_ [Hs [_ [_ Hv]]]]]]]]].
  cbv zeta in Hv. fold hip_y in Hv.
  exists cs. eexists.
  split.
  { unfold derive_motion_constants. rewrite Hc. cbn [bind fst snd].
    replace (len hips <? 2)%Z with false; [exact Hs | ].
    symmetry. apply Z.ltb_ge. unfold len. lia. }
  split; [exact Hv | ].
  split; [reflexivity | ].
  assert (Hy : spec_spans hip_y hip_y <> []).
  { unfold spec_spans, hip_y. rewrite length_map.
    destruct hips as [ | p hips']; [congruence | ]. simpl. congruence. }
  pose proof (_median_zero _ 80 Hy (spans_self_zero hip_y)) as Hm.
  rewrite _clamp_below by lra.
  vm_compute. reflexivity.
Qed.

Lemma reference_span_hip_fallback_witness :
  exists (cs : list (string * Q)) (v : Q),
    derive_motion_constants still_frames (2 # 10) = Ok cs /\
    constant "REFERENCE_BODY_SPAN_PX" cs = Some v /\
    v == 40.
Proof.
  destruct (reference_span_hip_fallback still_frames (2 # 10)
              [(200 # 2, 800 # 2); (200 # 2, 800 # 2)])
    as [cs [v [H1 [H2 [_ H3]]]]].
  - vm_compute. reflexivity.
  - simpl. lia.
  - exists cs, v. repeat split; assumption.
Defined.

(** ** A series without horizontal motion *)

Lemma spec_deltas_const (hip_x : list Q) (x0 : Q) :
  Forall (fun x => x == x0) hip_x ->
  Forall (fun d => d == 0) (spec_deltas hip_x).
Proof.
  induction hip_x as [ | a t IH]; intros H; [constructor | ].
  destruct t as [ | b t']; [constructor | ].
  change (spec_deltas (a :: b :: t'))
    with ((b - a) :: spec_deltas (b :: t')).
  inversion H as [ | ? ? Ha Ht]; subst.
  constructor; [ | now apply IH].
  inversion Ht as [ | ? ? Hb _]; subst.
  rewrite Ha, Hb. ring.
Qed.

Lemma Qabs_zero (d : Q) : d == 0 -> Qabs d == 0.
Proof. intros H. rewrite H. reflexivity. Qed.

Lemma filter_none {A : Type} (f : A -> bool) (l : list A) :
  Forall (fun a => f a = false) l -> filter f l = [].
Proof.
  induction 1 as [ | a l Ha _ IH]; simpl; [reflexivity | ].
  now rewrite Ha.
Qed.

Lemma still_walk_stride (hip_x : list Q) (x0 walk run : Q) :
  Forall (fun x => x == x0) hip_x ->
  _stride_stats hip_x = Ok (walk, run) ->
  walk = 30 * (21 # 10).
Proof.
  intros Hx. rewrite stride_stats_eval. intros H.
  apply Ok_inj in H. injection H as <- _.
  rewrite filter_none; [reflexivity | ].
  eapply Forall_impl; [ | exact (spec_deltas_const _ _ Hx)].
  intros d Hd. simpl in Hd. apply Qltb_ge.
  rewrite (Qabs_zero d Hd). lra.
Qed.

Lemma still_dash_distance (hip_x : list Q) (x0 dash : Q) :
  (2 <= length hip_x)%nat ->
  Forall (fun x => x == x0) hip_x ->
  _dash_distance hip_x = Ok dash ->
  dash = 48.
Proof.
  intros Hlen Hx.
  destruct (dash_distance_eval hip_x Hlen) as [_ [_ [_ Hd]]].
  rewrite Hd. intros H. apply Ok_inj in H. subst dash.
  set (s := sorted (map Qabs (spec_deltas hip_x))).
  assert (Hs : Forall (fun d => d == 0) s).
  { apply (Permutation_Forall (Permutation_sym (sorted_perm _))).
    apply Forall_forall. intros d Hd'. apply in_map_iff in Hd'.
    destruct Hd' as [d' [<- Hin]]. apply Qabs_zero.
    pose proof (spec_deltas_const _ _ Hx) as Hz.
    rewrite Forall_forall in Hz. now apply Hz. }
  assert (Hp : nth (spec_p90_index (length s)) s 0 == 0).
  { apply (nth_Forall (fun d => d == 0)); [exact Hs | reflexivity]. }
  unfold py_max.
  destruct (Qltb 48 _) eqn:E; [ | reflexivity].
  apply Qltb_lt in E. rewrite Hp in E. lra.
Qed.

(** C4 as stated fails: two frames with the hips at rest give
    [WALK_SWING_FORWARD_PX = 26.46], not [round(clamp(30.0 * 0.42, 20, 72), 2)],
    which is 20. *)
Lemma still_walk_is_not_unscaled_fallback :
  exists (hip_midpoints shoulder_midpoints : list (Q * Q))
         (cs : list (string * Q)) (w : Q),
    collect_midpoints still_frames (2 # 10) [] []
      = Ok (hip_midpoints, shoulder_midpoints) /\
    (2 <= length hip_midpoints)%nat /\
    Forall (fun p => fst p == 100) hip_midpoints /\
    derive_motion_constants still_frames (2 # 10) = Ok cs /\
    constant "WALK_SWING_FORWARD_PX" cs = Some w /\
    w == 2646 # 100 /\
    ~ w == py_round2 (_clamp (30 * px_to_world) 20 72).
Proof.
  exists [(200 # 2, 800 # 2); (200 # 2, 800 # 2)], [].
  eexists. exists (2646 # 100).
  split; [vm_compute; reflexivity | ].
  split; [simpl; lia | ].
  split; [repeat constructor | ].
  split; [vm_compute; reflexivity | ].
  split; [reflexivity | ].
  split; [reflexivity | ].
  vm_compute. discriminate.
Qed.

(** C4, amended: when the hip midpoint series has at least two samples and
    a constant x, [WALK_SWING_FORWARD_PX] is
    [round(clamp(30.0 * 2.1 * 0.42, 20, 72), 2)] (the 30.0 fallback is scaled
    by 2.1 like any median), and [DASH_ROOT_ADVANCE_PX] is
    [round(clamp(64.0 * 0.42, 42, 140), 2)]. *)
Theorem still_series_walk_and_dash :
  forall (frames : list (list Q)) (min_conf : Q)
         (hip_midpoints shoulder_midpoints : list (Q * Q)) (x0 : Q),
    collect_midpoints frames min_conf [] []
      = Ok (hip_midpoints, shoulder_midpoints) ->
    (2 <= length hip_midpoints)%nat ->
    Forall (fun p => fst p == x0) hip_midpoints ->
    exists cs : list (string * Q),
      derive_motion_constants frames min_conf = Ok cs /\
      constant "WALK_SWING_FORWARD_PX" cs
        = Some (py_round2 (_clamp (30 * (21 # 10) * px_to_world) 20 72)) /\
      constant "DASH_ROOT_ADVANCE_PX" cs
        = Some (py_round2 (_clamp (64 * px_to_world) 42 140)).
Proof.
  intros frames min_conf hips shoulders x0 Hc Hlen Hx.
  assert (Hne : hips <> []).
  { intros E. rewrite E in Hlen. simpl in Hlen. lia. }
  assert (Hx' : Forall (fun x => x == x0) (map fst hips)).
  { apply Forall_forall. intros x Hin. apply in_map_iff in Hin.
    destruct Hin as [p [<- Hp]]. rewrite Forall_forall in Hx. now apply Hx. }
  destruct (synthesize_eval hips shoulders Hne)
    as [cs [walk [run [dash [Es [Ed [Hs [Hw [Hd _]]]]]]]]].
  rewrite (still_walk_stride _ _ _ _ Hx' Es) in Hw.
  assert (Hlx : (2 <= length (map fst hips))%nat)
    by (now rewrite length_map).
  rewrite (still_dash_distance _ x0 _ Hlx Hx' Ed) in Hd.
  exists cs.
  split.
  { unfold derive_motion_constants. rewrite Hc. cbn [bind fst snd].
    replace (len hips <? 2)%Z with false; [exact Hs | ].
    symmetry. apply Z.ltb_ge. unfold len. lia. }
  split; [exact Hw | ].
  rewrite Hd. vm_compute. reflexivity.
Qed.

Lemma still_series_walk_and_dash_witness :
  exists cs : list (string * Q),
    derive_motion_constants still_frames (2 # 10) = Ok cs /\
    constant "WALK_SWING_FORWARD_PX" cs
      = Some (py_round2 (_clamp (30 * (21 # 10) * px_to_world) 20 72)) /\
    constant "DASH_ROOT_ADVANCE_PX" cs
      = Some (py_round2 (_clamp (64 * px_to_world) 42 140)).
Proof.
  apply (still_series_walk_and_dash still_frames (2 # 10)
           [(200 # 2, 800 # 2); (200 # 2, 800 # 2)] [] 100).
  - vm_compute. reflexivity.
  - simpl. lia.
  - repeat constructor.
Defined.

(** ** Frame ingestion *)

Section IngestionProperties.

Variable str_to_float : string -> option Q.

Lemma mapM_length {A B : Type} (f : A -> result B) (l : list A)
    (bs : list B) :
  mapM f l = Ok bs -> length bs = length l.
Proof.
  revert bs. induction l as [ | a l IH]; intros bs H; simpl in H.
  - apply Ok_inj in H. now subst.
  - destruct (f a) as [b | e]; cbn [bind] in H; [ | discriminate].
    destruct (mapM f l) as [bs' | e]; cbn [bind] in H; [ | discriminate].
    apply Ok_inj in H. subst. simpl. now rewrite (IH bs' eq_refl).
Qed.

Lemma extracted_frame_ok (item : pyval) (a : list Q) :
  _extract_keypoints_array str_to_float item = Ok (Some a) -> frame_ok a.
Proof.
  unfold _extract_keypoints_array.
  destruct (_extract_people_entry item) as [[ | kv person] | ];
    try discriminate.
  destruct (dict_get "pose_keypoints_2d" (kv :: person)) as [[ | | | | | arr | ] | ];
    try discriminate.
  destruct (length arr <? length COCO_PARTS * 3)%nat eqn:E;
    [discriminate | ].
  destruct (mapM (py_float str_to_float) arr) as [fs | e] eqn:Em;
    cbn [bind]; [ | discriminate].
  intros H. apply Ok_inj in H. injection H as <-.
  unfold frame_ok. rewrite (mapM_length _ _ _ Em).
  now apply Nat.ltb_ge in E.
Qed.

Lemma load_loop_frames (items : list pyval) :
  forall acc frames : list (list Q),
    load_loop str_to_float items acc = Ok frames ->
    Forall frame_ok acc ->
    Forall frame_ok frames /\
    (length frames <= length acc + length items)%nat.
Proof.
  induction items as [ | item rest IH]; intros acc frames H Hacc.
  - simpl in H. apply Ok_inj in H. subst. split; [exact Hacc | lia].
  - cbn [load_loop] in H.
    destruct (_extract_keypoints_array str_to_float item)
      as [[[ | x a] | ] | e] eqn:Ex; cbn [bind] in H; try discriminate.
    + destruct (IH _ _ H Hacc). split; [assumption | simpl; lia].
    + apply extracted_frame_ok in Ex.
      destruct (IH _ _ H) as [Hf Hl].
      { apply Forall_app. split; [exact Hacc | now constructor]. }
      split; [exact Hf | ].
      rewrite length_app in Hl. simpl in *. lia.
    + destruct (IH _ _ H Hacc). split; [assumption | simpl; lia].
Qed.

End IngestionProperties.

(** C3 fails on the code: an item whose keypoint array is long enough but
    holds JSON nulls is not dropped; [float(v)] raises [TypeError] and
    [_load_frames] raises with it, whatever the string parser. *)
Theorem null_keypoints_raise :
  forall str_to_float : string -> option Q,
    _load_frames str_to_float null_keypoints_payload = Raise TypeError.
Proof. intros str_to_float. reflexivity. Qed.

(** C5 as stated fails: a retained array of 75 numbers yields a frame of 75
    floats, not of 54. *)
Lemma body25_frame_is_longer :
  exists f : list Q,
    _load_frames reject_strings body25_payload = Ok [f] /\
    length f = 75%nat /\
    length f <> (length COCO_PARTS * 3)%nat.
Proof.
  eexists. split; [vm_compute; reflexivity | ].
  split; [reflexivity | ]. simpl. lia.
Qed.

Lemma extracted_frame_is_whole_array (str_to_float : string -> option Q)
    (item : pyval) (a : list Q) :
  _extract_keypoints_array str_to_float item = Ok (Some a) ->
  (54 <= length a)%nat /\ converted_from str_to_float item a.
Proof.
  unfold _extract_keypoints_array, converted_from.
  destruct (_extract_people_entry item) as [[ | kv person] | ];
    try discriminate.
  destruct (dict_get "pose_keypoints_2d" (kv :: person))
    as [[ | | | | | arr | ] | ] eqn:Eg; try discriminate.
  destruct (length arr <? length COCO_PARTS * 3)%nat eqn:E;
    [discriminate | ].
  destruct (mapM (py_float str_to_float) arr) as [fs | e] eqn:Em;
    cbn [bind]; [ | discriminate].
  intros H. apply Ok_inj in H. injection H as <-.
  pose proof (mapM_length _ _ _ Em) as Hl.
  apply Nat.ltb_ge in E. change (length COCO_PARTS * 3)%nat with 54%nat in E.
  split; [lia | ].
  exists (kv :: person), arr. repeat split; assumption.
Qed.

Lemma load_loop_keeps_whole_arrays (str_to_float : string -> option Q)
    (all items : list pyval) :
  (forall item, In item items -> In item all) ->
  forall acc frames : list (list Q),
    load_loop str_to_float items acc = Ok frames ->
    Forall (fun frame =>
              (54 <= length frame)%nat /\
              exists item, In item all /\
                           converted_from str_to_float item frame) acc ->
    Forall (fun frame =>
              (54 <= length frame)%nat /\
              exists item, In item all /\
                           converted_from str_to_float item frame) frames /\
    (length frames <= length acc + length items)%nat.
Proof.
  induction items as [ | item rest IH]; intros Hsub acc frames H Hacc.
  - simpl in H. apply Ok_inj in H. subst. split; [exact Hacc | lia].
  - assert (Hrest : forall i, In i rest -> In i all)
      by (intros i Hi; apply Hsub; now right).
    cbn [load_loop] in H.
    destruct (_extract_keypoints_array str_to_float item)
      as [[[ | x a] | ] | e] eqn:Ex; cbn [bind] in H; try discriminate.
    + destruct (IH Hrest _ _ H Hacc). split; [assumption | simpl; lia].
    + apply extracted_frame_is_whole_array in Ex. destruct Ex as [H54 Hconv].
      destruct (IH Hrest _ _ H) as [Hf Hl].
      { apply Forall_app. split; [exact Hacc | ].
        constructor; [ | constructor].
        split; [exact H54 | ].
        exists item. split; [apply Hsub; now left | exact Hconv]. }
      split; [exact Hf | ].
      rewrite length_app in Hl. simpl in *. lia.
    + destruct (IH Hrest _ _ H Hacc). split; [assumption | simpl; lia].
Qed.

(** C5, amended: every frame in the output of [_load_frames] holds at least
    [len(COCO_PARTS) * 3 = 54] floats and is the whole keypoint array of one
    of the input items, converted element by element: a retained array of
    more than 54 elements is kept whole, not cut to 54.  The output list is
    no longer than the list of input items. *)
Theorem loaded_frames_address_all_parts :
  forall (str_to_float : string -> option Q) (payload : pyval)
         (frames : list (list Q)),
    _load_frames str_to_float payload = Ok frames ->
    Forall (fun frame =>
              (54 <= length frame)%nat /\
              exists item,
                In item (frame_items payload) /\
                converted_from str_to_float item frame) frames /\
    (length frames <= length (frame_items payload))%nat.
Proof.
  intros str_to_float payload frames H.
  destruct (load_loop_keeps_whole_arrays str_to_float
              (frame_items payload) (frame_items payload)
              (fun _ Hin => Hin) [] frames H (Forall_nil _)) as [Hf Hl].
  split; [exact Hf | exact Hl].
Qed.

Lemma loaded_frames_address_all_parts_witness :
  exists frames : list (list Q),
    _load_frames reject_strings body25_payload = Ok frames /\
    Forall (fun frame =>
              (54 <= length frame)%nat /\
              exists item,
                In item (frame_items body25_payload) /\
                converted_from reject_strings item frame) frames /\
    (length frames <= length (frame_items body25_payload))%nat.
Proof.
  eexists. split.
  - vm_compute. reflexivity.
  - apply (loaded_frames_address_all_parts reject_strings body25_payload).
    vm_compute. reflexivity.
Defined.

(** ** The confidence gate *)

Lemma _part_eval (frame : list Q) (name : string) (i : Z) (x y c : Q) :
  list_index name COCO_PARTS = Ok i ->
  py_getitem frame (i * 3) = Ok x ->
  py_getitem frame (i * 3 + 1) = Ok y ->
  py_getitem frame (i * 3 + 2) = Ok c ->
  _part frame name = if Qle_bool c 0 then Ok None else Ok (Some (x, y, c)).
Proof.
  intros Hi Hx Hy Hc. unfold _part.
  rewrite Hi. cbn [bind]. rewrite Hx. cbn [bind].
  rewrite Hy. cbn [bind]. rewrite Hc. reflexivity.
Qed.

(** C6 as stated fails at the threshold 0: the left hip of
    [lopsided_frame] has confidence 0, equal to the threshold, and the right
    hip qualifies, yet the left hip is absent and the frame gives no hip
    midpoint. *)
Lemma zero_threshold_joint_absent :
  py_getitem lopsided_frame 35 = Ok 0 /\
  _part lopsided_frame "r_hip" = Ok (Some (100, 400, 1)) /\
  _part lopsided_frame "l_hip" = Ok None /\
  _midpoint None (Some (100, 400, 1)) 0 = None /\
  collect_midpoints [lopsided_frame] 0 [] [] = Ok ([], []).
Proof. repeat split; vm_compute; reflexivity. Qed.

(** C6, amended: for a positive threshold.  A keypoint whose confidence is
    0 or negative is absent and gives no midpoint, with whatever partner; a
    keypoint whose confidence equals the threshold is present and, paired
    with a joint that clears the threshold, gives the midpoint sample. *)
Theorem confidence_gate_inclusive :
  forall (frame : list Q) (name : string) (i : Z) (x y c : Q)
         (bx by_ bc min_conf : Q),
    list_index name COCO_PARTS = Ok i ->
    py_getitem frame (i * 3) = Ok x ->
    py_getitem frame (i * 3 + 1) = Ok y ->
    py_getitem frame (i * 3 + 2) = Ok c ->
    0 < min_conf ->
    min_conf <= bc ->
    (c <= 0 ->
     _part frame name = Ok None /\
     _midpoint None (Some (bx, by_, bc)) min_conf = None /\
     _midpoint (Some (bx, by_, bc)) None min_conf = None) /\
    (c == min_conf ->
     _part frame name = Ok (Some (x, y, c)) /\
     _midpoint (Some (x, y, c)) (Some (bx, by_, bc)) min_conf
       = Some ((x + bx) * (1 # 2), (y + by_) * (1 # 2)) /\
     _midpoint (Some (bx, by_, bc)) (Some (x, y, c)) min_conf
       = Some ((bx + x) * (1 # 2), (by_ + y) * (1 # 2))).
Proof.
  intros frame name i x y c bx by_ bc min_conf Hi Hx Hy Hc Hpos Hb.
  rewrite (_part_eval _ _ _ _ _ _ Hi Hx Hy Hc).
  assert (Eb : Qltb bc min_conf = false) by (now apply Qltb_ge).
  split.
  - intros Hle. apply Qle_bool_iff in Hle. rewrite Hle.
    repeat split; reflexivity.
  - intros Heq.
    assert (Ec : Qle_bool c 0 = false).
    { apply Bool.not_true_iff_false. rewrite Qle_bool_iff. lra. }
    assert (Ea : Qltb c min_conf = false) by (apply Qltb_ge; lra).
    rewrite Ec. unfold _midpoint. rewrite Ea, Eb.
    repeat split; reflexivity.
Qed.

Lemma confidence_gate_inclusive_witness :
  _part (pose_frame 100 400 0 0 0 0) "l_hip" = Ok None /\
  _part (pose_frame 100 400 (2 # 10) 0 0 0) "l_hip"
    = Ok (Some (100, 400, 2 # 10)) /\
  _midpoint (Some (100, 400, 2 # 10)) (Some (130, 400, 1)) (2 # 10)
    = Some ((100 + 130) * (1 # 2), (400 + 400) * (1 # 2)).
Proof.
  assert (Hpos : 0 < 2 # 10) by (unfold Qlt; simpl; lia).
  assert (Hb : 2 # 10 <= 1) by (unfold Qle; simpl; lia).
  destruct (confidence_gate_inclusive (pose_frame 100 400 0 0 0 0) "l_hip"
              11 100 400 0 130 400 1 (2 # 10)
              eq_refl eq_refl eq_refl eq_refl Hpos Hb) as [Habsent _].
  destruct (confidence_gate_inclusive
              (pose_frame 100 400 (2 # 10) 0 0 0) "l_hip"
              11 100 400 (2 # 10) 130 400 1 (2 # 10)
              eq_refl eq_refl eq_refl eq_refl Hpos Hb) as [_ Hpresent].
  destruct (Habsent (Qle_refl 0)) as [H1 _].
  destruct (Hpresent (Qeq_refl (2 # 10))) as [H2 [H3 _]].
  repeat split; assumption.
Defined.

(** * Further properties of the constants script *)

(** ** [_clamp] *)

(** X1: with ordered bounds [_clamp] returns the lower bound for a value at
    or below it, the upper bound for a value at or above it, and the value
    itself in between. *)
Theorem _clamp_cases :
  forall value lo hi : Q,
    lo <= hi ->
    (value <= lo -> _clamp value lo hi == lo) /\
    (hi <= value -> _clamp value lo hi == hi) /\
    (lo <= value <= hi -> _clamp value lo hi == value).
Proof.
  intros value lo hi Hlh. unfold _clamp, py_max, py_min.
  destruct (Qltb value hi) eqn:E1.
  - apply Qltb_lt in E1.
    destruct (Qltb lo value) eqn:E2;
      [apply Qltb_lt in E2 | apply Qltb_ge in E2];
      repeat split; intros; lra.
  - apply Qltb_ge in E1.
    destruct (Qltb lo hi) eqn:E2;
      [apply Qltb_lt in E2 | apply Qltb_ge in E2];
      repeat split; intros; lra.
Qed.

Lemma _clamp_cases_witness :
  _clamp 5 20 72 == 20 /\ _clamp 100 20 72 == 72 /\ _clamp 30 20 72 == 30.
Proof.
  assert (H : 20 <= 72) by (unfold Qle; simpl; lia).
  destruct (_clamp_cases 5 20 72 H) as [H1 _].
  destruct (_clamp_cases 100 20 72 H) as [_ [H2 _]].
  destruct (_clamp_cases 30 20 72 H) as [_ [_ H3]].
  split; [apply H1; unfold Qle; simpl; lia | ].
  split; [apply H2; unfold Qle; simpl; lia | ].
  apply H3. split; unfold Qle; simpl; lia.
Defined.

Lemma _clamp_mono_bounds (u v lo hi lo' hi' : Q) :
  u <= v -> lo <= lo' -> hi <= hi' -> lo <= hi -> lo' <= hi' ->
  _clamp u lo hi <= _clamp v lo' hi'.
Proof.
  intros Huv Hl Hh Hlh Hlh'. unfold _clamp, py_max, py_min.
  destruct (Qltb u hi) eqn:E1;
    [apply Qltb_lt in E1 | apply Qltb_ge in E1];
  destruct (Qltb v hi') eqn:E2;
    [apply Qltb_lt in E2 | apply Qltb_ge in E2 | apply Qltb_lt in E2
     | apply Qltb_ge in E2];
  match goal with
  | |- (if Qltb ?a ?b then _ else _) <= (if Qltb ?c ?d then _ else _) =>
      destruct (Qltb a b) eqn:E3;
        [apply Qltb_lt in E3 | apply Qltb_ge in E3];
      destruct (Qltb c d) eqn:E4;
        [apply Qltb_lt in E4 | apply Qltb_ge in E4 | apply Qltb_lt in E4
         | apply Qltb_ge in E4]
  end; lra.
Qed.

(** X2: [_clamp] is monotone in the value it clamps. *)
Theorem _clamp_monotone :
  forall u v lo hi : Q,
    lo <= hi -> u <= v -> _clamp u lo hi <= _clamp v lo hi.
Proof.
  intros u v lo hi Hlh Huv.
  apply _clamp_mono_bounds; try assumption; apply Qle_refl.
Qed.

Lemma _clamp_monotone_witness : _clamp 10 20 72 <= _clamp 50 20 72.
Proof.
  apply (_clamp_monotone 10 50 20 72); unfold Qle; simpl; lia.
Defined.

(** X3: with inverted bounds, [hi < lo], [_clamp] returns [lo] whatever the
    value. *)
Theorem _clamp_inverted_bounds :
  forall value lo hi : Q, hi < lo -> _clamp value lo hi = lo.
Proof.
  intros value lo hi H. unfold _clamp, py_max.
  pose proof (py_min_upper hi value) as Hm.
  destruct (Qltb lo (py_min hi value)) eqn:E; [ | reflexivity].
  apply Qltb_lt in E. lra.
Qed.

Lemma _clamp_inverted_bounds_witness : _clamp 50 72 20 = 72.
Proof. apply (_clamp_inverted_bounds 50 72 20). unfold Qlt. simpl. lia. Defined.

(** ** [_median] *)

Lemma statistics_median_mean_closed (P : Q -> Prop) (l : list Q) :
  l <> [] ->
  (forall a b, P a -> P b -> P ((a + b) / 2)) ->
  Forall P l -> P (statistics_median l).
Proof.
  intros Hne Hmean Hl.
  assert (Hs : Forall P (sorted l)).
  { apply (Permutation_Forall (Permutation_sym (sorted_perm l))), Hl. }
  assert (Hn : (0 < length (sorted l))%nat).
  { rewrite sorted_length. destruct l; [congruence | simpl; lia]. }
  rewrite Forall_forall in Hs.
  assert (Hhalf : (length (sorted l) / 2 < length (sorted l))%nat)
    by (apply Nat.div_lt; lia).
  unfold statistics_median.
  destruct (Nat.odd (length (sorted l))).
  - apply Hs, nth_In, Hhalf.
  - apply Hmean; apply Hs, nth_In; lia.
Qed.

(** X4: the median of a non-empty list lies between any two bounds that
    enclose all its elements; the fallback plays no part. *)
Theorem _median_within_bounds :
  forall (values : list Q) (fallback a b : Q),
    values <> [] ->
    Forall (fun v => a <= v <= b) values ->
    a <= _median values fallback <= b.
Proof.
  intros values fallback a b Hne Hall.
  destruct values as [ | x l]; [congruence | ].
  change (_median (x :: l) fallback) with (statistics_median (x :: l)).
  apply (statistics_median_mean_closed (fun q => a <= q <= b) (x :: l));
    try assumption.
  intros u v [Hu1 Hu2] [Hv1 Hv2].
  assert (E : (u + v) / 2 == (u + v) * (1 # 2)) by field.
  rewrite E. split; lra.
Qed.

Lemma _median_within_bounds_witness :
  10 <= _median [30; 35; 10] 80 <= 35.
Proof.
  apply (_median_within_bounds [30; 35; 10] 80 10 35).
  - discriminate.
  - repeat constructor; unfold Qle; simpl; lia.
Defined.

(** ** Statistics depend on the values only up to order and equality *)

Lemma sorted_compat (l l' : list Q) :
  Forall2 Qeq l l' -> Forall2 Qeq (sorted l) (sorted l').
Proof.
  induction 1 as [ | x x' l l' Hx _ IH]; simpl.
  - constructor.
  - now apply insert_sorted_compat.
Qed.

Lemma sorted_equiv (l' p l : list Q) :
  Forall2 Qeq l' p -> Permutation p l ->
  Forall2 Qeq (sorted l') (sorted l).
Proof.
  intros H1 H2. eapply Forall2_Qeq_trans.
  - apply sorted_compat, H1.
  - apply sorted_respects_perm, H2.
Qed.

Lemma statistics_median_sorted_equiv (l l' : list Q) :
  Forall2 Qeq (sorted l) (sorted l') ->
  statistics_median l == statistics_median l'.
Proof.
  intros H. unfold statistics_median.
  rewrite <- (Forall2_length H).
  destruct (Nat.odd (length (sorted l))).
  - now apply Forall2_Qeq_nth.
  - rewrite (Forall2_Qeq_nth _ _ (length (sorted l) / 2 - 1) H).
    rewrite (Forall2_Qeq_nth _ _ (length (sorted l) / 2) H).
    reflexivity.
Qed.

Lemma _median_sorted_equiv (l l' : list Q) (fallback : Q) :
  Forall2 Qeq (sorted l) (sorted l') ->
  _median l fallback == _median l' fallback.
Proof.
  intros H. pose proof (Forall2_length H) as Hl.
  rewrite !sorted_length in Hl.
  destruct l as [ | x l0]; destruct l' as [ | x' l0']; try discriminate.
  - reflexivity.
  - now apply statistics_median_sorted_equiv.
Qed.

(** X5: [_median] does not depend on the order of its values. *)
Theorem _median_permutation :
  forall (values values' : list Q) (fallback : Q),
    Permutation values values' ->
    _median values fallback == _median values' fallback.
Proof.
  intros values values' fallback H.
  apply _median_sorted_equiv, sorted_respects_perm, H.
Qed.

Lemma _median_permutation_witness :
  _median [30; 35; 10] 80 == _median [10; 30; 35] 80.
Proof.
  apply (_median_permutation [30; 35; 10] [10; 30; 35] 80).
  apply Permutation_sym.
  apply (Permutation_cons_app [30; 35] [] 10). simpl. apply Permutation_refl.
Defined.

Lemma filter_compat (f : Q -> bool) (l l' : list Q) :
  (forall a a', a == a' -> f a = f a') ->
  Forall2 Qeq l l' -> Forall2 Qeq (filter f l) (filter f l').
Proof.
  intros Hf. induction 1 as [ | a a' l l' Ha _ IH]; simpl.
  - constructor.
  - rewrite (Hf a a' Ha). destruct (f a'); [now constructor | exact IH].
Qed.

Lemma filter_perm (f : Q -> bool) (l l' : list Q) :
  Permutation l l' -> Permutation (filter f l) (filter f l').
Proof.
  induction 1 as [ | x l l' _ IH | x y l | l1 l2 l3 _ IH1 _ IH2]; simpl.
  - constructor.
  - destruct (f x); [now constructor | exact IH].
  - destruct (f x); destruct (f y);
      try apply Permutation_refl; apply perm_swap.
  - eapply Permutation_trans; eassumption.
Qed.

Lemma abs_filter_swap (eps : Q) (l : list Q) :
  map Qabs (filter (fun d => Qltb eps (Qabs d)) l)
  = filter (Qltb eps) (map Qabs l).
Proof.
  induction l as [ | d l IH]; simpl; [reflexivity | ].
  destruct (Qltb eps (Qabs d)); simpl; now rewrite IH.
Qed.

(** The value [_dash_distance] returns, for a sequence of any length. *)
Lemma dash_distance_eval_any (hip_x : list Q) :
  let s := sorted (map Qabs (spec_deltas hip_x)) in
  _dash_distance hip_x
  = Ok (match s with
        | [] => 64
        | _ :: _ => py_max 48 (nth (spec_p90_index (length s)) s 0 * (45 # 10))
        end).
Proof.
  intros s. unfold _dash_distance.
  rewrite (mapM_then_map _ Qabs _ _ (deltas_ok _)). cbn [bind].
  fold s. destruct s as [ | d0 s'] eqn:Es; [reflexivity | ].
  destruct (py_int_p90 (len (d0 :: s') - 1)) as [Hfl [H0 Hk]].
  { unfold len. cbn [length]. lia. }
  set (k := py_int _) in *.
  assert (Ek : spec_p90_index (length (d0 :: s')) = Z.to_nat k).
  { unfold spec_p90_index. fold (len (d0 :: s')). now rewrite <- Hfl. }
  rewrite Ek. rewrite <- (Z2Nat.id k) at 1 by lia.
  rewrite (py_getitem_nth (d0 :: s') _ 0) by (unfold len in Hk; lia).
  reflexivity.
Qed.

(** Two hip-x sequences whose absolute deltas agree up to order and
    equality of numbers get the same strides and the same dash distance. *)
Lemma statistics_equiv (hip_x hip_x' p : list Q) :
  Forall2 Qeq (map Qabs (spec_deltas hip_x')) p ->
  Permutation p (map Qabs (spec_deltas hip_x)) ->
  exists walk run dash walk' run' dash' : Q,
    _stride_stats hip_x = Ok (walk, run) /\
    _dash_distance hip_x = Ok dash /\
    _stride_stats hip_x' = Ok (walk', run') /\
    _dash_distance hip_x' = Ok dash' /\
    walk' == walk /\ run' == run /\ dash' == dash.
Proof.
  intros Hf Hp.
  do 6 eexists.
  split; [apply stride_stats_eval | ].
  split; [apply dash_distance_eval_any | ].
  split; [apply stride_stats_eval | ].
  split; [apply dash_distance_eval_any | ].
  assert (Hw : _median (map Qabs (filter (fun d => Qltb (1 # 1000000) (Qabs d))
                                        (spec_deltas hip_x'))) 30
               == _median (map Qabs (filter (fun d => Qltb (1 # 1000000) (Qabs d))
                                        (spec_deltas hip_x))) 30).
  { rewrite !abs_filter_swap. apply _median_sorted_equiv.
    apply (sorted_equiv _ (filter (Qltb (1 # 1000000)) p)).
    - apply filter_compat; [ | exact Hf].
      intros a a' Ha. apply Qltb_compat; [reflexivity | exact Ha].
    - apply filter_perm, Hp. }
  split; [now rewrite Hw | ].
  split; [now rewrite Hw | ].
  pose proof (sorted_equiv _ _ _ Hf Hp) as Hs.
  pose proof (Forall2_length Hs) as Hl.
  destruct (sorted (map Qabs (spec_deltas hip_x'))) as [ | a' s'] eqn:E';
    destruct (sorted (map Qabs (spec_deltas hip_x))) as [ | a s0] eqn:E;
    try discriminate.
  - reflexivity.
  - rewrite Hl. apply py_max_compat.
    rewrite (Forall2_Qeq_nth _ _ _ Hs). reflexivity.
Qed.

Lemma Forall2_Qeq_map_abs (l l' : list Q) :
  Forall2 Qeq l l' -> Forall2 Qeq (map Qabs l) (map Qabs l').
Proof.
  induction 1 as [ | a a' l l' Ha _ IH]; simpl; constructor;
    [now rewrite Ha | exact IH].
Qed.

Lemma Forall2_Qeq_abs_opp (l : list Q) :
  Forall2 Qeq (map Qabs (map Qopp l)) (map Qabs l).
Proof.
  induction l as [ | a l IH]; simpl; constructor;
    [apply Qabs_opp | exact IH].
Qed.

Lemma Forall2_Qeq_snoc (l l' : list Q) (a a' : Q) :
  Forall2 Qeq l l' -> a == a' -> Forall2 Qeq (l ++ [a]) (l' ++ [a']).
Proof.
  intros Hl Ha. apply Forall2_app; [exact Hl | now repeat constructor].
Qed.

Lemma spec_deltas_snoc (l : list Q) (a b : Q) :
  spec_deltas (l ++ [a; b]) = spec_deltas (l ++ [a]) ++ [b - a].
Proof.
  induction l as [ | x l IH]; [reflexivity | ].
  destruct l as [ | y l'].
  - reflexivity.
  - change (spec_deltas ((x :: y :: l') ++ [a; b]))
      with ((y - x) :: spec_deltas ((y :: l') ++ [a; b])).
    rewrite IH. reflexivity.
Qed.

Lemma spec_deltas_rev (hip_x : list Q) :
  Forall2 Qeq (spec_deltas (rev hip_x))
              (rev (map Qopp (spec_deltas hip_x))).
Proof.
  induction hip_x as [ | x t IH]; [constructor | ].
  destruct t as [ | y t'].
  - constructor.
  - change (spec_deltas (x :: y :: t'))
      with ((y - x) :: spec_deltas (y :: t')).
    cbn [map]. change (rev (x :: y :: t')) with ((rev t' ++ [y]) ++ [x]).
    rewrite <- app_assoc. cbn [app]. rewrite spec_deltas_snoc.
    change (rev (- (y - x) :: map Qopp (spec_deltas (y :: t'))))
      with (rev (map Qopp (spec_deltas (y :: t'))) ++ [- (y - x)]).
    apply Forall2_Qeq_snoc; [exact IH | ring].
Qed.

Lemma spec_deltas_mirror (hip_x : list Q) :
  Forall2 Qeq (spec_deltas (map Qopp hip_x))
              (map Qopp (spec_deltas hip_x)).
Proof.
  induction hip_x as [ | x l IH]; [constructor | ].
  destruct l as [ | y l'].
  - constructor.
  - change (spec_deltas (map Qopp (x :: y :: l')))
      with ((- y - - x) :: spec_deltas (map Qopp (y :: l'))).
    change (spec_deltas (x :: y :: l'))
      with ((y - x) :: spec_deltas (y :: l')).
    cbn [map]. constructor; [ring | exact IH].
Qed.

(** X6: walking the same path backwards gives the same strides and the
    same dash distance: [_stride_stats] and [_dash_distance] agree on a
    hip-x sequence and on its reversal. *)
Theorem statistics_of_reversed_path :
  forall hip_x : list Q,
    exists walk run dash walk' run' dash' : Q,
      _stride_stats hip_x = Ok (walk, run) /\
      _dash_distance hip_x = Ok dash /\
      _stride_stats (rev hip_x) = Ok (walk', run') /\
      _dash_distance (rev hip_x) = Ok dash' /\
      walk' == walk /\ run' == run /\ dash' == dash.
Proof.
  intros hip_x.
  apply (statistics_equiv hip_x (rev hip_x)
           (rev (map Qabs (spec_deltas hip_x)))).
  - eapply Forall2_Qeq_trans.
    + apply Forall2_Qeq_map_abs, spec_deltas_rev.
    + rewrite map_rev. rewrite <- (map_rev Qabs (spec_deltas hip_x)).
      rewrite <- !map_rev. apply Forall2_Qeq_abs_opp.
  - apply Permutation_sym, Permutation_rev.
Qed.

(** X8: mirroring the path, [x] to [-x], changes neither the strides nor
    the dash distance. *)
Theorem statistics_of_mirrored_path :
  forall hip_x : list Q,
    exists walk run dash walk' run' dash' : Q,
      _stride_stats hip_x = Ok (walk, run) /\
      _dash_distance hip_x = Ok dash /\
      _stride_stats (map Qopp hip_x) = Ok (walk', run') /\
      _dash_distance (map Qopp hip_x) = Ok dash' /\
      walk' == walk /\ run' == run /\ dash' == dash.
Proof.
  intros hip_x.
  apply (statistics_equiv hip_x _ (map Qabs (spec_deltas hip_x))).
  - eapply Forall2_Qeq_trans.
    + apply Forall2_Qeq_map_abs, spec_deltas_mirror.
    + apply Forall2_Qeq_abs_opp.
  - apply Permutation_refl.
Qed.

(** ** Strides and dash distance on any input *)

(** X9: the walk stride is strictly positive on every hip-x sequence, and
    the run stride is the walk stride times 1.65. *)
Theorem strides_positive :
  forall (hip_x : list Q) (walk run : Q),
    _stride_stats hip_x = Ok (walk, run) ->
    0 < walk /\ run = walk * (165 # 100).
Proof.
  intros hip_x walk run. rewrite stride_stats_eval. intros H.
  apply Ok_inj in H. injection H as <- <-.
  split; [ | reflexivity].
  set (ds := filter _ _).
  assert (Hm : 0 < _median (map Qabs ds) 30).
  { destruct (map Qabs ds) as [ | a l] eqn:E; [reflexivity | ].
    change (_median (a :: l) 30) with (statistics_median (a :: l)).
    apply (statistics_median_mean_closed (fun q => 0 < q));
      [discriminate | | ].
    - intros u v Hu Hv.
      assert (Eq : (u + v) / 2 == (u + v) * (1 # 2)) by field.
      rewrite Eq. lra.
    - rewrite <- E. apply Forall_forall. intros q Hq.
      apply in_map_iff in Hq. destruct Hq as [d [<- Hd]].
      unfold ds in Hd. apply filter_In in Hd. destruct Hd as [_ Hd].
      apply Qltb_lt in Hd. lra. }
  lra.
Qed.

Lemma strides_positive_witness :
  exists walk run : Q,
    _stride_stats [100; 130; 95] = Ok (walk, run) /\
    0 < walk /\ run = walk * (165 # 100).
Proof.
  eexists. eexists. split.
  - vm_compute. reflexivity.
  - apply (strides_positive [100; 130; 95]). vm_compute. reflexivity.
Defined.

(** X10: [_dash_distance] never raises and never returns less than 48; on
    fewer than two samples it returns 64. *)
Theorem dash_distance_floor :
  forall hip_x : list Q,
    exists dash : Q,
      _dash_distance hip_x = Ok dash /\
      48 <= dash /\
      ((length hip_x < 2)%nat -> dash = 64).
Proof.
  intros hip_x. eexists.
  split; [apply dash_distance_eval_any | ].
  assert (Hl : length (sorted (map Qabs (spec_deltas hip_x)))
               = (length hip_x - 1)%nat).
  { now rewrite sorted_length, length_map, spec_deltas_length. }
  destruct (sorted (map Qabs (spec_deltas hip_x))) as [ | a s].
  - split; [lra | reflexivity].
  - split; [apply py_max_lower | ].
    intros Hlt. simpl in Hl. lia.
Qed.

(** ** Part lookup *)

Lemma list_index_spec (name : string) (l : list string) :
  (In name l ->
   exists i, list_index name l = Ok (Z.of_nat i) /\ (i < length l)%nat) /\
  (~ In name l -> list_index name l = Raise ValueError).
Proof.
  induction l as [ | s l [IHin IHout]]; simpl.
  - split; [intros [] | reflexivity].
  - destruct (String.eqb s name) eqn:E.
    + split.
      * intros _. exists 0%nat. split; [reflexivity | lia].
      * intros Hn. apply String.eqb_eq in E. tauto.
    + apply String.eqb_neq in E. split.
      * intros [Hs | Hin]; [congruence | ].
        destruct (IHin Hin) as [i [Hi Hlt]].
        exists (S i). rewrite Hi. cbn [bind].
        split; [f_equal; lia | lia].
      * intros Hn. rewrite IHout by tauto. reflexivity.
Qed.

(** X11: looking up a part that is not in [COCO_PARTS] raises
    [ValueError], whatever the frame. *)
Theorem _part_unknown_name :
  forall (frame : list Q) (name : string),
    ~ In name COCO_PARTS -> _part frame name = Raise ValueError.
Proof.
  intros frame name Hn. unfold _part.
  rewrite (proj2 (list_index_spec name COCO_PARTS) Hn). reflexivity.
Qed.

Lemma _part_unknown_name_witness :
  _part (pose_frame 100 400 1 100 300 1) "tail" = Raise ValueError.
Proof.
  apply (_part_unknown_name (pose_frame 100 400 1 100 300 1) "tail").
  simpl. intros H.
  repeat (destruct H as [H | H]; [discriminate | ]). exact H.
Defined.

Lemma part_lookup_succeeds :
  forall (frame : list Q) (name : string),
    frame_ok frame ->
    In name COCO_PARTS ->
    exists r : option XYC,
      _part frame name = Ok r /\
      forall x y c, r = Some (x, y, c) -> 0 < c.
Proof.
  intros frame name Hok Hin.
  destruct (proj1 (list_index_spec name COCO_PARTS) Hin) as [i [Hi Hlt]].
  unfold frame_ok in Hok.
  assert (H0 : py_getitem frame (Z.of_nat i * 3)
               = Ok (nth (i * 3) frame 0)).
  { rewrite <- (py_getitem_nth frame (i * 3) 0) by lia. f_equal. lia. }
  assert (H1 : py_getitem frame (Z.of_nat i * 3 + 1)
               = Ok (nth (i * 3 + 1) frame 0)).
  { rewrite <- (py_getitem_nth frame (i * 3 + 1) 0) by lia. f_equal. lia. }
  assert (H2 : py_getitem frame (Z.of_nat i * 3 + 2)
               = Ok (nth (i * 3 + 2) frame 0)).
  { rewrite <- (py_getitem_nth frame (i * 3 + 2) 0) by lia. f_equal. lia. }
  rewrite (_part_eval _ _ _ _ _ _ Hi H0 H1 H2).
  destruct (Qle_bool (nth (i * 3 + 2) frame 0) 0) eqn:E.
  - exists None. split; [reflexivity | discriminate].
  - eexists. split; [reflexivity | ].
    intros x y c Hr. injection Hr as <- <- <-.
    apply Bool.not_true_iff_false in E. rewrite Qle_bool_iff in E.
    now apply Qnot_le_lt.
Qed.

(** X12: on a frame of at least 54 floats every canonical part can be
    looked up without an exception, and a keypoint that is returned has a
    strictly positive confidence. *)
Theorem _part_on_full_frame :
  forall (frame : list Q) (name : string),
    frame_ok frame ->
    In name COCO_PARTS ->
    exists r : option XYC,
      _part frame name = Ok r /\
      forall x y c, r = Some (x, y, c) -> 0 < c.
Proof. exact part_lookup_succeeds. Qed.

Lemma _part_on_full_frame_witness :
  exists r : option XYC,
    _part (pose_frame 100 400 1 100 300 1) "l_hip" = Ok r /\
    forall x y c, r = Some (x, y, c) -> 0 < c.
Proof.
  apply (_part_on_full_frame (pose_frame 100 400 1 100 300 1) "l_hip").
  - unfold frame_ok. simpl. lia.
  - simpl. tauto.
Defined.

Lemma py_getitem_past_end {A : Type} (l : list A) (j : Z) :
  (Z.of_nat (length l) <= j)%Z -> py_getitem l j = Raise IndexError.
Proof.
  intros Hj. unfold py_getitem. cbv zeta.
  assert (E : (j <? 0)%Z = false) by (apply Z.ltb_ge; lia).
  rewrite E, E.
  destruct (nth_error l (Z.to_nat j)) as [a | ] eqn:En; [ | reflexivity].
  assert (Z.to_nat j < length l)%nat
    by (apply nth_error_Some; congruence).
  lia.
Qed.

Lemma py_getitem_raises {A : Type} (l : list A) (j : Z) (e : exn) :
  py_getitem l j = Raise e -> e = IndexError.
Proof.
  unfold py_getitem. cbv zeta.
  destruct (_ <? 0)%Z; [congruence | ].
  destruct (nth_error _ _); congruence.
Qed.

(** X13: on a frame too short to hold the confidence of a part, looking
    that part up raises [IndexError]. *)
Theorem _part_short_frame :
  forall (frame : list Q) (name : string) (i : Z),
    list_index name COCO_PARTS = Ok i ->
    (Z.of_nat (length frame) < i * 3 + 3)%Z ->
    _part frame name = Raise IndexError.
Proof.
  intros frame name i Hi Hshort. unfold _part. rewrite Hi. cbn [bind].
  destruct (py_getitem frame (i * 3)) as [x | e] eqn:Ex; cbn [bind];
    [ | now rewrite (py_getitem_raises _ _ _ Ex)].
  destruct (py_getitem frame (i * 3 + 1)) as [y | e] eqn:Ey; cbn [bind];
    [ | now rewrite (py_getitem_raises _ _ _ Ey)].
  rewrite py_getitem_past_end by lia. reflexivity.
Qed.

Lemma _part_short_frame_witness :
  _part [1; 2; 3; 4; 5] "neck" = Raise IndexError.
Proof.
  apply (_part_short_frame [1; 2; 3; 4; 5] "neck" 1).
  - reflexivity.
  - simpl. lia.
Defined.

(** ** The frame loop *)

Lemma collect_midpoints_on_full_frames (frames : list (list Q))
    (min_conf : Q) :
  Forall frame_ok frames ->
  forall hips shoulders : list (Q * Q),
    exists hips' shoulders' : list (Q * Q),
      collect_midpoints frames min_conf hips shoulders
        = Ok (hips ++ hips', shoulders ++ shoulders') /\
      (length hips' <= length frames)%nat /\
      (length shoulders' <= length frames)%nat.
Proof.
  induction 1 as [ | frame rest Hok _ IH]; intros hips shoulders.
  - exists [], []. rewrite !app_nil_r. repeat split; simpl; lia.
  - cbn [collect_midpoints].
    destruct (part_lookup_succeeds frame "l_hip" Hok) as [lh [E1 _]];
      [simpl; tauto | ].
    destruct (part_lookup_succeeds frame "r_hip" Hok) as [rh [E2 _]];
      [simpl; tauto | ].
    destruct (part_lookup_succeeds frame "l_shoulder" Hok) as [ls [E3 _]];
      [simpl; tauto | ].
    destruct (part_lookup_succeeds frame "r_shoulder" Hok) as [rs [E4 _]];
      [simpl; tauto | ].
    rewrite E1, E2, E3, E4. cbn [bind].
    destruct (_midpoint lh rh min_conf) as [hm | ];
      destruct (_midpoint ls rs min_conf) as [sm | ].
    + destruct (IH (hips ++ [hm]) (shoulders ++ [sm])) as [h' [s' [E [Lh Ls]]]].
      exists (hm :: h'), (sm :: s'). rewrite E, <- !app_assoc.
      repeat split; simpl; lia.
    + destruct (IH (hips ++ [hm]) shoulders) as [h' [s' [E [Lh Ls]]]].
      exists (hm :: h'), s'. rewrite E, <- !app_assoc.
      repeat split; simpl; lia.
    + destruct (IH hips (shoulders ++ [sm])) as [h' [s' [E [Lh Ls]]]].
      exists h', (sm :: s'). rewrite E, <- !app_assoc.
      repeat split; simpl; lia.
    + destruct (IH hips shoulders) as [h' [s' [E [Lh Ls]]]].
      exists h', s'. rewrite E. repeat split; simpl; lia.
Qed.

(** X14: on frames of at least 54 floats the frame loop never raises, and
    neither midpoint series is longer than the frame series. *)
Theorem midpoint_series_bounded :
  forall (frames : list (list Q)) (min_conf : Q),
    Forall frame_ok frames ->
    exists hip_midpoints shoulder_midpoints : list (Q * Q),
      collect_midpoints frames min_conf [] []
        = Ok (hip_midpoints, shoulder_midpoints) /\
      (length hip_midpoints <= length frames)%nat /\
      (length shoulder_midpoints <= length frames)%nat.
Proof.
  intros frames min_conf Hok.
  exact (collect_midpoints_on_full_frames frames min_conf Hok [] []).
Qed.

Lemma midpoint_series_bounded_witness :
  exists hip_midpoints shoulder_midpoints : list (Q * Q),
    collect_midpoints still_frames (2 # 10) [] []
      = Ok (hip_midpoints, shoulder_midpoints) /\
    (length hip_midpoints <= length still_frames)%nat /\
    (length shoulder_midpoints <= length still_frames)%nat.
Proof.
  apply (midpoint_series_bounded still_frames (2 # 10)).
  repeat constructor; unfold frame_ok; simpl; lia.
Defined.

(** ** When the derivation succeeds *)

Lemma derive_total_on_two_samples (frames : list (list Q)) (min_conf : Q)
    (hips shoulders : list (Q * Q)) :
  collect_midpoints frames min_conf [] [] = Ok (hips, shoulders) ->
  (2 <= length hips)%nat ->
  exists cs, derive_motion_constants frames min_conf = Ok cs.
Proof.
  intros Hc Hlen.
  assert (Hne : hips <> []).
  { intros E. rewrite E in Hlen. simpl in Hlen. lia. }
  destruct (synthesize_eval hips shoulders Hne)
    as [cs [_ [_ [_ [_ [_ [Hs _]]]]]]].
  exists cs. unfold derive_motion_constants. rewrite Hc. cbn [bind fst snd].
  replace (len hips <? 2)%Z with false; [exact Hs | ].
  symmetry. apply Z.ltb_ge. unfold len. lia.
Qed.

(** X15: once the frame loop has run, [derive_motion_constants] returns
    constants exactly when there are at least two hip midpoint samples; no
    later step can fail. *)
Theorem derive_succeeds_iff_two_samples :
  forall (frames : list (list Q)) (min_conf : Q)
         (hip_midpoints shoulder_midpoints : list (Q * Q)),
    collect_midpoints frames min_conf [] []
      = Ok (hip_midpoints, shoulder_midpoints) ->
    ((exists cs, derive_motion_constants frames min_conf = Ok cs) <->
     (2 <= length hip_midpoints)%nat).
Proof.
  intros frames min_conf hips shoulders Hc. split.
  - intros [cs H]. unfold derive_motion_constants in H.
    rewrite Hc in H. cbn [bind fst snd] in H.
    destruct (len hips <? 2)%Z eqn:E; [discriminate | ].
    apply Z.ltb_ge in E. unfold len in E. lia.
  - exact (derive_total_on_two_samples _ _ _ _ Hc).
Qed.

Lemma derive_succeeds_iff_two_samples_witness :
  (exists cs, derive_motion_constants still_frames (2 # 10) = Ok cs) <->
  (2 <= 2)%nat.
Proof.
  apply (derive_succeeds_iff_two_samples still_frames (2 # 10)
           [(200 # 2, 800 # 2); (200 # 2, 800 # 2)] []).
  vm_compute. reflexivity.
Defined.

Lemma derive_raises_only_value_error (frames : list (list Q))
    (min_conf : Q) (e : exn) :
  Forall frame_ok frames ->
  derive_motion_constants frames min_conf = Raise e -> e = ValueError.
Proof.
  intros Hok H.
  destruct (collect_midpoints_on_full_frames frames min_conf Hok [] [])
    as [hips [shoulders [Hc _]]].
  simpl in Hc.
  destruct (Nat.lt_ge_cases (length hips) 2) as [Hlt | Hge].
  - unfold derive_motion_constants in H. rewrite Hc in H.
    cbn [bind fst snd] in H.
    replace (len hips <? 2)%Z with true in H; [congruence | ].
    symmetry. apply Z.ltb_lt. unfold len. lia.
  - destruct (derive_total_on_two_samples _ _ _ _ Hc Hge) as [cs Hcs].
    congruence.
Qed.

Section PipelineProperties.

Variable str_to_float : string -> option Q.

Lemma py_float_raises (v : pyval) (e : exn) :
  py_float str_to_float v = Raise e -> e <> IndexError.
Proof.
  destruct v; simpl; try discriminate; try congruence.
  destruct (str_to_float s); congruence.
Qed.

Lemma mapM_raises {A B : Type} (f : A -> result B) (l : list A) (e : exn) :
  mapM f l = Raise e -> exists a, In a l /\ f a = Raise e.
Proof.
  induction l as [ | a l IH]; simpl; [discriminate | ].
  destruct (f a) as [b | e'] eqn:Ea; cbn [bind].
  - destruct (mapM f l) as [bs | e''] eqn:Em; cbn [bind]; [discriminate | ].
    intros H. destruct (IH H) as [a' [Hin Ha']]. exists a'. tauto.
  - intros H. exists a. split; [now left | congruence].
Qed.

Lemma extract_raises (item : pyval) (e : exn) :
  _extract_keypoints_array str_to_float item = Raise e -> e <> IndexError.
Proof.
  unfold _extract_keypoints_array.
  destruct (_extract_people_entry item) as [[ | kv person] | ];
    try discriminate.
  destruct (dict_get "pose_keypoints_2d" (kv :: person))
    as [[ | | | | | arr | ] | ]; try discriminate.
  destruct (length arr <? length COCO_PARTS * 3)%nat; [discriminate | ].
  destruct (mapM (py_float str_to_float) arr) as [fs | e'] eqn:Em;
    cbn [bind]; [discriminate | ].
  intros H. apply mapM_raises in Em. destruct Em as [v [_ Hv]].
  apply py_float_raises in Hv. congruence.
Qed.

Lemma load_loop_raises (items : list pyval) :
  forall (acc : list (list Q)) (e : exn),
    load_loop str_to_float items acc = Raise e -> e <> IndexError.
Proof.
  induction items as [ | item rest IH]; intros acc e H.
  - discriminate.
  - cbn [load_loop] in H.
    destruct (_extract_keypoints_array str_to_float item) as [arr | e']
      eqn:Ex; cbn [bind] in H.
    + destruct arr as [[ | x a] | ]; now apply IH in H.
    + apply extract_raises in Ex. congruence.
Qed.

(** X16: a run of [main] never ends in an uncaught [IndexError]: every
    frame that ingestion hands to [derive_motion_constants] is long enough
    for the four joints it reads. *)
Theorem main_never_index_error :
  forall (payload : pyval) (min_confidence : Q),
    main_core str_to_float payload min_confidence <> Uncaught IndexError.
Proof.
  intros payload min_confidence. unfold main_core.
  destruct (_load_frames str_to_float payload) as [frames | e] eqn:El.
  - destruct frames as [ | f fs]; [discriminate | ].
    destruct (derive_motion_constants (f :: fs) min_confidence)
      as [cs | e] eqn:Ed; [discriminate | ].
    assert (Hok : Forall frame_ok (f :: fs)).
    { apply (load_loop_frames str_to_float _ _ _ El (Forall_nil _)). }
    rewrite (derive_raises_only_value_error _ _ _ Hok Ed). discriminate.
  - apply load_loop_raises in El. congruence.
Qed.

End PipelineProperties.

(** ** Shape and internal order of the constants *)

Lemma round_half_even_mono (a b : Q) :
  a <= b -> (round_half_even a <= round_half_even b)%Z.
Proof.
  intros Hab.
  pose proof (Qfloor_resp_le _ _ Hab) as Hf.
  pose proof (round_half_even_floor a) as Ha.
  pose proof (round_half_even_floor b) as Hb.
  destruct (Z.eq_dec (Qfloor a) (Qfloor b)) as [E | NE]; [ | lia].
  unfold round_half_even in *. rewrite <- E in *.
  set (f := Qfloor a) in *.
  destruct (Qcompare (a - inject_Z f) (1 # 2)) eqn:Ca;
    destruct (Qcompare (b - inject_Z f) (1 # 2)) eqn:Cb;
    try lia;
    try (destruct (Z.even f); lia);
    repeat match goal with
    | H : Qcompare _ _ = Eq |- _ => apply Qeq_alt in H
    | H : Qcompare _ _ = Lt |- _ => apply Qlt_alt in H
    | H : Qcompare _ _ = Gt |- _ => apply Qgt_alt in H
    end;
    try (generalize dependent (inject_Z f); intros; lra).
Qed.

Lemma py_round2_mono (a b : Q) : a <= b -> py_round2 a <= py_round2 b.
Proof.
  intros Hab. unfold py_round2.
  assert (H : (round_half_even (a * 100) <= round_half_even (b * 100))%Z)
    by (apply round_half_even_mono; lra).
  unfold Qle. simpl. lia.
Qed.

Lemma dash_distance_at_least_48 (hip_x : list Q) (dash : Q) :
  _dash_distance hip_x = Ok dash -> 48 <= dash.
Proof.
  rewrite dash_distance_eval_any. intros H. apply Ok_inj in H. subst dash.
  destruct (sorted _); [lra | apply py_max_lower].
Qed.

Ltac run_synthesis H Es Ed :=
  unfold derive_motion_constants in H;
  destruct (collect_midpoints _ _ [] []) as [[hips shoulders] | ];
    cbn [bind fst snd] in H; [ | discriminate];
  destruct (len hips <? 2)%Z; [discriminate | ];
  unfold synthesize in H;
  destruct (_stride_stats (map fst hips)) as [[walk run] | ] eqn:Es;
    cbn [bind fst snd] in H; [ | discriminate];
  destruct (_dash_distance (map fst hips)) as [dash | ] eqn:Ed;
    cbn [bind fst snd] in H; [ | discriminate];
  destruct (py_getitem (map snd hips) 0) as [y0 | ];
    cbn [bind fst snd] in H; [ | discriminate];
  destruct (py_min_list (map snd hips)) as [lo_y | ];
    cbn [bind fst snd] in H; [ | discriminate];
  destruct (py_max_list (map snd hips)) as [hi_y | ];
    cbn [bind fst snd] in H; [ | discriminate];
  destruct (mapM _ _) as [spans | ]; cbn [bind fst snd] in H;
    [ | discriminate];
  apply Ok_inj in H.

(** X17: a successful run returns exactly the ten constant keys, in the
    order of the dictionary literal. *)
Theorem constants_have_the_ten_keys :
  forall (frames : list (list Q)) (min_conf : Q) (cs : list (string * Q)),
    derive_motion_constants frames min_conf = Ok cs ->
    map fst cs = constant_keys.
Proof.
  intros frames min_conf cs H.
  run_synthesis H Es Ed. subst cs. reflexivity.
Qed.

Lemma constants_have_the_ten_keys_witness :
  exists cs,
    derive_motion_constants walking_frames (2 # 10) = Ok cs /\
    map fst cs = constant_keys.
Proof.
  eexists. split.
  - vm_compute. reflexivity.
  - apply (constants_have_the_ten_keys walking_frames (2 # 10)).
    vm_compute. reflexivity.
Defined.

(** X18: the constants of a successful run are ordered among themselves:
    the walk swing does not exceed the run swing, the walk lift does not
    exceed the run lift, which does not exceed the jump height, and the
    dash foot drive does not exceed the dash root advance. *)
Theorem constants_are_ordered :
  forall (frames : list (list Q)) (min_conf : Q) (cs : list (string * Q)),
    derive_motion_constants frames min_conf = Ok cs ->
    exists walk_fwd run_fwd walk_lift run_lift jump foot_drive root_advance,
      constant "WALK_SWING_FORWARD_PX" cs = Some walk_fwd /\
      constant "RUN_SWING_FORWARD_PX" cs = Some run_fwd /\
      constant "WALK_SWING_LIFT_PX" cs = Some walk_lift /\
      constant "RUN_SWING_LIFT_PX" cs = Some run_lift /\
      constant "JUMP_HEIGHT_PX" cs = Some jump /\
      constant "DASH_FOOT_DRIVE_PX" cs = Some foot_drive /\
      constant "DASH_ROOT_ADVANCE_PX" cs = Some root_advance /\
      walk_fwd <= run_fwd /\
      walk_lift <= run_lift /\ run_lift <= jump /\
      foot_drive <= root_advance.
Proof.
  intros frames min_conf cs H.
  run_synthesis H Es Ed. subst cs.
  pose proof (walk_stride_nonneg _ _ _ Es) as Hw.
  rewrite stride_stats_eval in Es. apply Ok_inj in Es.
  injection Es as Ew Er.
  pose proof (dash_distance_at_least_48 _ _ Ed) as Hd.
  set (jump_px := py_max 12 (_median (map snd hips) y0 - lo_y)).
  assert (Hj : 12 <= jump_px) by apply py_max_lower.
  do 7 eexists.
  do 7 (split; [reflexivity | ]).
  unfold px_to_world.
  repeat split; apply py_round2_mono, _clamp_mono_bounds;
    try (unfold Qle; simpl; lia).
  - rewrite <- Er, Ew. lra.
  - lra.
  - lra.
  - lra.
Qed.

Lemma constants_are_ordered_witness :
  exists (cs : list (string * Q)) (walk_fwd run_fwd : Q),
    derive_motion_constants walking_frames (2 # 10) = Ok cs /\
    constant "WALK_SWING_FORWARD_PX" cs = Some walk_fwd /\
    constant "RUN_SWING_FORWARD_PX" cs = Some run_fwd /\
    walk_fwd <= run_fwd.
Proof.
  eexists.
  assert (E : derive_motion_constants walking_frames (2 # 10) = Ok _)
    by (vm_compute; reflexivity).
  destruct (constants_are_ordered walking_frames (2 # 10) _ E)
    as [w [r [wl [rl [j [f [a [H1 [H2 [_ [_ [_ [_ [_ [H3 _]]]]]]]]]]]]]]].
  exists w, r. repeat split; eassumption.
Defined.

(** ** More on frame ingestion *)

Section IngestionRoundTrip.

Variable str_to_float : string -> option Q.

(** X19: an item that wraps a person record in a [people] list is read
    exactly like the person record on its own; only the first person
    counts. *)
Theorem people_wrapper_is_transparent :
  forall (d person : list (string * pyval)) (others : list pyval),
    dict_get "people" d = Some (PList (PDict person :: others)) ->
    (forall l, dict_get "people" person <> Some (PList l)) ->
    _extract_keypoints_array str_to_float (PDict d)
    = _extract_keypoints_array str_to_float (PDict person).
Proof.
  intros d person others Hd Hp.
  unfold _extract_keypoints_array, _extract_people_entry. rewrite Hd.
  destruct (dict_get "people" person) as [[ | | | | | l | ] | ] eqn:E;
    try reflexivity.
  exfalso. now apply (Hp l).
Qed.

Lemma mapM_float_of_floats (frame : list Q) :
  mapM (py_float str_to_float) (map PFloat frame) = Ok frame.
Proof.
  induction frame as [ | q l IH]; simpl; [reflexivity | ].
  now rewrite IH.
Qed.

Lemma extract_person_item (frame : list Q) :
  _extract_keypoints_array str_to_float (person_item frame)
  = if (length frame <? length COCO_PARTS * 3)%nat then Ok None
    else Ok (Some frame).
Proof.
  unfold _extract_keypoints_array, person_item.
  cbn [_extract_people_entry dict_get String.eqb Ascii.eqb Bool.eqb].
  rewrite length_map.
  destruct (length frame <? length COCO_PARTS * 3)%nat; [reflexivity | ].
  now rewrite mapM_float_of_floats.
Qed.

Lemma load_loop_person_items (frames : list (list Q)) :
  forall acc : list (list Q),
    load_loop str_to_float (map person_item frames) acc
    = Ok (acc ++ filter (fun f => (54 <=? length f)%nat) frames).
Proof.
  induction frames as [ | f fs IH]; intros acc.
  - simpl. now rewrite app_nil_r.
  - cbn [map load_loop filter]. rewrite extract_person_item.
    change (length COCO_PARTS * 3)%nat with 54%nat.
    destruct (Nat.ltb_spec (length f) 54) as [Hlt | Hge].
    + replace (54 <=? length f)%nat with false
        by (symmetry; apply Nat.leb_gt; lia).
      cbn [bind]. apply IH.
    + replace (54 <=? length f)%nat with true
        by (symmetry; apply Nat.leb_le; lia).
      cbn [bind]. destruct f as [ | q f']; [simpl in Hge; lia | ].
      rewrite IH, <- app_assoc. reflexivity.
Qed.

(** X20: frames written out as bare person records come back from
    [_load_frames] unchanged and in order, except that those of fewer than
    54 floats are dropped; it makes no difference whether the records are
    passed as a list or under a [frames] key. *)
Theorem load_frames_round_trip :
  forall frames : list (list Q),
    _load_frames str_to_float (PList (map person_item frames))
      = Ok (filter (fun f => (54 <=? length f)%nat) frames) /\
    _load_frames str_to_float
        (PDict [ ("frames"%string, PList (map person_item frames)) ])
      = Ok (filter (fun f => (54 <=? length f)%nat) frames).
Proof.
  intros frames. split; exact (load_loop_person_items frames []).
Qed.

Lemma mapM_float_of_numbers (arr : list pyval) :
  Forall (fun v => is_number v = true) arr ->
  exists fs, mapM (py_float str_to_float) arr = Ok fs.
Proof.
  induction 1 as [ | v l Hv _ [fs IH]]; simpl.
  - now exists [].
  - rewrite IH. destruct v; try discriminate; simpl; eexists; reflexivity.
Qed.

Lemma load_loop_numbers (items : list pyval) :
  Forall (fun item =>
            forall person arr,
              _extract_people_entry item = Some person ->
              dict_get "pose_keypoints_2d" person = Some (PList arr) ->
              Forall (fun v => is_number v = true) arr) items ->
  forall acc, exists frames, load_loop str_to_float items acc = Ok frames.
Proof.
  induction 1 as [ | item rest Hitem _ IH]; intros acc.
  - now exists acc.
  - cbn [load_loop].
    assert (Hx : exists r, _extract_keypoints_array str_to_float item = Ok r).
    { unfold _extract_keypoints_array.
      destruct (_extract_people_entry item) as [[ | kv person] | ] eqn:Ep;
        try (eexists; reflexivity).
      destruct (dict_get "pose_keypoints_2d" (kv :: person))
        as [[ | | | | | arr | ] | ] eqn:Eg; try (eexists; reflexivity).
      destruct (length arr <? length COCO_PARTS * 3)%nat;
        [eexists; reflexivity | ].
      destruct (mapM_float_of_numbers arr (Hitem _ _ eq_refl Eg)) as [fs Hfs].
      rewrite Hfs. eexists. reflexivity. }
    destruct Hx as [r Hr]. rewrite Hr. cbn [bind].
    destruct r as [[ | x a] | ]; apply IH.
Qed.

(** X21: when every keypoint array that ingestion reaches holds only
    floats, booleans and integers of magnitude at most 2^53,
    [_load_frames] returns a list of frames and raises nothing. *)
Theorem load_frames_total_on_numbers :
  forall payload : pyval,
    Forall (fun item =>
              forall person arr,
                _extract_people_entry item = Some person ->
                dict_get "pose_keypoints_2d" person = Some (PList arr) ->
                Forall (fun v => is_number v = true) arr)
           (frame_items payload) ->
    exists frames, _load_frames str_to_float payload = Ok frames.
Proof.
  intros payload H. exact (load_loop_numbers _ H []).
Qed.

End IngestionRoundTrip.

Lemma people_wrapper_is_transparent_witness :
  _extract_keypoints_array reject_strings
    (PDict [ ("people"%string,
              PList [ person_item (pose_frame 100 400 1 100 300 1);
                      PNone ]) ])
  = _extract_keypoints_array reject_strings
      (person_item (pose_frame 100 400 1 100 300 1)).
Proof.
  apply (people_wrapper_is_transparent reject_strings
           [ ("people"%string,
              PList [ person_item (pose_frame 100 400 1 100 300 1);
                      PNone ]) ]
           [ ("pose_keypoints_2d"%string,
              PList (map PFloat (pose_frame 100 400 1 100 300 1))) ]
           [ PNone ]).
  - reflexivity.
  - intros l. simpl. discriminate.
Defined.

Lemma load_frames_total_on_numbers_witness :
  exists frames, _load_frames reject_strings body25_payload = Ok frames.
Proof.
  apply (load_frames_total_on_numbers reject_strings body25_payload).
  apply Forall_cons; [ | apply Forall_nil].
  intros person arr Hp Hg.
  simpl in Hp. injection Hp as <-.
  simpl in Hg. injection Hg as <-.
  repeat constructor.
Defined.

(** * Properties of the blueprint generator *)

Section Blueprint.

Variables (mode : string)
          (stride lift jump_height nudge_step crouch_drop dash_distance : Q).

(** X22: [build_payload] returns a payload exactly for the eleven actions
    the command line offers, and raises [ValueError] for any other name. *)
Theorem build_payload_supported_actions :
  forall action : string,
    ((exists payload,
        build_payload action mode stride lift jump_height nudge_step
          crouch_drop dash_distance = Ok payload) <->
     In action action_choices) /\
    (~ In action action_choices ->
     build_payload action mode stride lift jump_height nudge_step
       crouch_drop dash_distance = Raise ValueError).
Proof.
  intros action.
  assert (Hin : In action action_choices ->
                exists payload,
                  build_payload action mode stride lift jump_height
                    nudge_step crouch_drop dash_distance = Ok payload).
  { intros H. simpl in H.
    repeat (destruct H as [<- | H]; [eexists; reflexivity | ]).
    destruct H. }
  assert (Hout : ~ In action action_choices ->
                 build_payload action mode stride lift jump_height
                   nudge_step crouch_drop dash_distance
                 = Raise ValueError).
  { intros H. unfold build_payload.
    repeat match goal with
    | |- context [String.eqb action ?s] =>
        destruct (String.eqb_spec action s) as [E | _];
          [exfalso; apply H; rewrite E; simpl; tauto | ]
    end.
    reflexivity. }
  split; [ | exact Hout].
  split; [ | exact Hin].
  intros [payload Hp].
  destruct (in_dec string_dec action action_choices) as [Hi | Hn];
    [exact Hi | ].
  rewrite (Hout Hn) in Hp. discriminate.
Qed.

(** X23: every payload carries a numeric root displacement and at least
    one note, and never both [ik_targets] and [fk_rotations_deg]. *)
Theorem payload_shape :
  forall (action : string) (payload : pyval),
    build_payload action mode stride lift jump_height nudge_step
      crouch_drop dash_distance = Ok payload ->
    (exists x y : Q,
       number_at root_x payload = Some x /\
       number_at root_y payload = Some y) /\
    (exists (note : string) (notes : list pyval),
       lookup_path ["notes"%string] payload
       = Some (PList (PStr note :: notes))) /\
    (lookup_path ["ik_targets"%string] payload = None \/
     lookup_path ["fk_rotations_deg"%string] payload = None).
Proof.
  intros action payload H.
  assert (Hin : In action action_choices).
  { destruct (in_dec string_dec action action_choices) as [Hi | Hn];
      [exact Hi | ].
    exfalso. revert H. unfold build_payload.
    repeat match goal with
    | |- context [String.eqb action ?s] =>
        destruct (String.eqb_spec action s) as [E | _];
          [exfalso; apply Hn; rewrite E; simpl; tauto | ]
    end.
    discriminate. }
  simpl in Hin.
  repeat (destruct Hin as [<- | Hin];
          [ unfold build_payload in H; cbn [String.eqb Ascii.eqb Bool.eqb] in H;
            apply Ok_inj in H; subst payload;
            unfold _walk_payload, _run_payload, _jump_payload;
            try destruct (String.eqb mode "ik");
            (split; [eexists; eexists; split; reflexivity | ]);
            (split; [eexists; eexists; reflexivity | ]);
            first [left; reflexivity | right; reflexivity]
          | ]).
  destruct Hin.
Qed.

End Blueprint.

Lemma payload_shape_witness :
  exists x y : Q,
    number_at root_x (_dash_payload 1 64) = Some x /\
    number_at root_y (_dash_payload 1 64) = Some y.
Proof.
  apply (payload_shape "ik" 34 26 56 14 28 64 "dash_right"
           (_dash_payload 1 64)).
  reflexivity.
Defined.

Ltac eval_closed_eqb :=
  repeat match goal with
  | |- context [String.eqb ?a ?b] =>
      let v := eval vm_compute in (String.eqb a b) in
      lazymatch v with
      | true => change (String.eqb a b) with true
      | false => change (String.eqb a b) with false
      end
  end.

Lemma Some_inj_Q (a b : Q) : Some a = Some b -> a = b.
Proof. intros H. now injection H. Qed.

(** X24: [nudge_up] and [nudge_down] undo each other: neither moves the
    root sideways and their vertical displacements sum to zero. *)
Theorem nudge_pair_cancels :
  forall (mode : string)
         (stride lift jump_height nudge_step crouch_drop dash_distance : Q),
    exists (up down : pyval) (y_up y_down : Q),
      build_payload "nudge_up" mode stride lift jump_height nudge_step
        crouch_drop dash_distance = Ok up /\
      build_payload "nudge_down" mode stride lift jump_height nudge_step
        crouch_drop dash_distance = Ok down /\
      number_at root_x up = Some 0 /\
      number_at root_x down = Some 0 /\
      number_at root_y up = Some y_up /\
      number_at root_y down = Some y_down /\
      y_up + y_down == 0.
Proof.
  intros. do 4 eexists.
  do 6 (split; [reflexivity | ]).
  ring.
Qed.

(** X25: [crouch_enter] and [crouch_exit] are a toggle pair: neither moves
    the root sideways and their vertical displacements sum to zero. *)
Theorem crouch_pair_cancels :
  forall (mode : string)
         (stride lift jump_height nudge_step crouch_drop dash_distance : Q),
    exists (enter exit : pyval) (y_enter y_exit : Q),
      build_payload "crouch_enter" mode stride lift jump_height nudge_step
        crouch_drop dash_distance = Ok enter /\
      build_payload "crouch_exit" mode stride lift jump_height nudge_step
        crouch_drop dash_distance = Ok exit /\
      number_at root_x enter = Some 0 /\
      number_at root_x exit = Some 0 /\
      number_at root_y enter = Some y_enter /\
      number_at root_y exit = Some y_exit /\
      y_enter + y_exit == 0.
Proof.
  intros. do 4 eexists.
  do 6 (split; [reflexivity | ]).
  ring.
Qed.

(** X26: the left and right variants of walk, run and dash are mirror
    images: the root moves by opposite amounts sideways and by the same
    amount vertically, and every IK target has its [dx] negated and its
    [dy] kept. *)
Theorem left_right_mirror :
  forall (base mode : string)
         (stride lift jump_height nudge_step crouch_drop dash_distance : Q),
    In base ["walk"; "run"; "dash"]%string ->
    exists (left right : pyval) (xl xr yl yr : Q),
      build_payload (base ++ "_left") mode stride lift jump_height
        nudge_step crouch_drop dash_distance = Ok left /\
      build_payload (base ++ "_right") mode stride lift jump_height
        nudge_step crouch_drop dash_distance = Ok right /\
      number_at root_x left = Some xl /\
      number_at root_x right = Some xr /\
      number_at root_y left = Some yl /\
      number_at root_y right = Some yr /\
      xl == - xr /\ yl == yr /\
      forall (target : string) (dxl dyl : Q),
        number_at ["ik_targets"; target; "dx"]%string left = Some dxl ->
        number_at ["ik_targets"; target; "dy"]%string left = Some dyl ->
        exists dxr dyr : Q,
          number_at ["ik_targets"; target; "dx"]%string right = Some dxr /\
          number_at ["ik_targets"; target; "dy"]%string right = Some dyr /\
          dxl == - dxr /\ dyl == dyr.
Proof.
  intros base mode stride lift jump_height nudge_step crouch_drop
         dash_distance Hin.
  simpl in Hin.
  destruct Hin as [<- | [<- | [<- | []]]];
    cbn [append build_payload String.eqb Ascii.eqb Bool.eqb];
    unfold _walk_payload, _run_payload, _dash_payload;
    try destruct (String.eqb mode "ik");
    do 6 eexists;
    (do 6 (split; [reflexivity | ]));
    (split; [ring | ]); (split; [reflexivity | ]);
    intros target dxl dyl;
    unfold number_at;
    repeat (progress (cbn [lookup_path app dict_get number_of];
                      eval_closed_eqb));
    repeat match goal with
    | |- context [String.eqb ?s target] =>
        destruct (String.eqb s target)
    end;
    repeat (progress (cbn [lookup_path app dict_get number_of];
                      eval_closed_eqb));
    intros Hx Hy; try discriminate;
    apply Some_inj_Q in Hx; apply Some_inj_Q in Hy; subst dxl dyl;
    do 2 eexists; (do 2 (split; [reflexivity | ]));
    split; try reflexivity; try ring;
    rewrite ?inject_Z_opp, ?inject_Z_mult; ring.
Qed.

Lemma left_right_mirror_witness :
  exists (left right : pyval) (xl xr : Q),
    build_payload "dash_left" "ik" 34 26 56 14 28 64 = Ok left /\
    build_payload "dash_right" "ik" 34 26 56 14 28 64 = Ok right /\
    number_at root_x left = Some xl /\
    number_at root_x right = Some xr /\
    xl == - xr.
Proof.
  destruct (left_right_mirror "dash" "ik" 34 26 56 14 28 64)
    as [l [r [xl [xr [yl [yr [H1 [H2 [H3 [H4 [_ [_ [H5 _]]]]]]]]]]]]].
  - simpl. tauto.
  - exists l, r, xl, xr. repeat split; assumption.
Defined.

(** X27: the nudge, crouch and dash actions ignore the mode: they build the
    same payload for every mode string. *)
Theorem mode_ignored_by_fixed_actions :
  forall (action mode mode' : string)
         (stride lift jump_height nudge_step crouch_drop dash_distance : Q),
    In action [ "nudge_up"; "nudge_down"; "crouch_enter"; "crouch_exit";
                "dash_left"; "dash_right" ]%string ->
    build_payload action mode stride lift jump_height nudge_step
      crouch_drop dash_distance
    = build_payload action mode' stride lift jump_height nudge_step
        crouch_drop dash_distance.
Proof.
  intros action mode mode' stride lift jump_height nudge_step crouch_drop
         dash_distance Hin.
  simpl in Hin.
  repeat (destruct Hin as [<- | Hin]; [reflexivity | ]).
  destruct Hin.
Qed.

Lemma mode_ignored_by_fixed_actions_witness :
  build_payload "dash_left" "ik" 34 26 56 14 28 64
  = build_payload "dash_left" "fk" 34 26 56 14 28 64.
Proof.
  apply (mode_ignored_by_fixed_actions "dash_left" "ik" "fk").
  simpl. tauto.
Defined.

(** X28: only the exact mode string [ik] selects IK targets; any other
    mode string builds the same payload as [fk], for every action. *)
Theorem other_modes_build_fk :
  forall (action mode : string)
         (stride lift jump_height nudge_step crouch_drop dash_distance : Q),
    mode <> "ik"%string ->
    build_payload action mode stride lift jump_height nudge_step
      crouch_drop dash_distance
    = build_payload action "fk" stride lift jump_height nudge_step
        crouch_drop dash_distance.
Proof.
  intros action mode stride lift jump_height nudge_step crouch_drop
         dash_distance Hm.
  apply String.eqb_neq in Hm.
  unfold build_payload, _walk_payload, _run_payload, _jump_payload.
  rewrite Hm.
  change (String.eqb "fk" "ik") with false.
  reflexivity.
Qed.

Lemma other_modes_build_fk_witness :
  build_payload "walk_left" "IK" 34 26 56 14 28 64
  = build_payload "walk_left" "fk" 34 26 56 14 28 64.
Proof.
  apply (other_modes_build_fk "walk_left" "IK"). discriminate.
Defined.
